(** * questions.py: IDF computation, TF-IDF file ranking, sentence ranking

    A shallow embedding of the functions of [socFinalProject/questions.py]
    and the properties proved about them.

    Modelling choices.
    - A Python [dict] is an association list in insertion order with unique
      keys ([Py.set] overwrites in place or appends, as CPython does).
    - A Python [set] of words is a duplicate-free list; its iteration order
      is the list order.  The query, a set, is given by such a list.
    - Python's float arithmetic is an interface ([PyFloat]); its instance
      [B64] is IEEE 754 binary64 as CPython computes it.  [math.log] is a
      further operation ([PyMath]), which binary64 alone does not fix.
      The theorems hold for every instance.  What they need of the
      comparisons is stated as laws ([PyFloatCompare]) that are proved of
      [B64]; what they need of [math.log] is stated as laws ([PyLogLaws])
      that the table of CPython's values used in the sample runs keeps.
      An int that meets a float (the initial 0 of a sum, a count, a
      missing idf) is promoted by [of_int].
    - [sorted] is a stable insertion sort; see [sorted_reverse_unique].
    - Exceptions are values of [exn] carried by the [result] monad. *)

From Stdlib Require Import List String ZArith Lia Bool Arith.
From Stdlib Require Import Permutation Sorted.
From Stdlib Require Import Floats.
Import ListNotations.

Set Implicit Arguments.

(** ** Exceptions and the result monad *)

Inductive exn : Type :=
| ZeroDivisionError
| ValueError.

Inductive result (A : Type) : Type :=
| Ok (a : A)
| Raise (e : exn).

Arguments Ok {A} a.
Arguments Raise {A} e.

Definition bind {A B : Type} (r : result A) (k : A -> result B) : result B :=
  match r with
  | Ok a => k a
  | Raise e => Raise e
  end.

Notation "x <- r ;; k" := (bind r (fun x => k))
  (at level 61, r at next level, right associativity).

(** A [for] loop whose body may raise: the first exception ends the loop. *)
Fixpoint for_each {A S : Type} (body : S -> A -> result S) (l : list A) (s : S)
  : result S :=
  match l with
  | [] => Ok s
  | a :: l' => s' <- body s a ;; for_each body l' s'
  end.

(** ** Python containers *)

Module Py.

Definition dict (V : Type) : Type := list (string * V).

Definition keys {V} (d : dict V) : list string := map fst d.
Definition values {V} (d : dict V) : list V := map snd d.

(** [d.get(k)] *)
Fixpoint get {V} (d : dict V) (k : string) : option V :=
  match d with
  | [] => None
  | (k', v) :: d' => if String.eqb k' k then Some v else get d' k
  end.

(** [d.get(k, default)] *)
Definition get_default {V} (d : dict V) (k : string) (default : V) : V :=
  match get d k with
  | Some v => v
  | None => default
  end.

(** [d[k] = v]: an existing key keeps its place, a new key goes last. *)
Fixpoint set {V} (d : dict V) (k : string) (v : V) : dict V :=
  match d with
  | [] => [(k, v)]
  | (k', v') :: d' =>
      if String.eqb k' k then (k', v) :: d' else (k', v') :: set d' k v
  end.

(** [w in l] for a list [l] *)
Definition mem (w : string) (l : list string) : bool :=
  existsb (String.eqb w) l.

(** [l.count(w)] *)
Fixpoint count (w : string) (l : list string) : nat :=
  match l with
  | [] => 0
  | x :: l' => (if String.eqb x w then 1 else 0) + count w l'
  end.

(** [set(l)]: the distinct elements of [l].  Python leaves the iteration
    order of a set open; here it is the order of last occurrences. *)
Fixpoint to_set (l : list string) : list string :=
  match l with
  | [] => []
  | x :: l' => if mem x l' then to_set l' else x :: to_set l'
  end.

(** [l[:n]] *)
Definition slice_to {A} (l : list A) (n : Z) : list A :=
  if (0 <=? n)%Z then firstn (Z.to_nat n) l
  else firstn (List.length l - Z.to_nat (- n)) l.

(** A list of items is a dict when no key occurs twice. *)
Definition wf {V} (d : dict V) : Prop := NoDup (keys d).

End Py.

(** ** Float arithmetic as the code uses it *)

Class PyFloat : Type := {
  float : Type;
  of_int : Z -> float;                (* int operand promoted to float *)
  fadd : float -> float -> float;     (* x + y *)
  fmul : float -> float -> float;     (* x * y *)
  truediv : Z -> Z -> float;          (* i / j on ints, j nonzero *)
  feqb : float -> float -> bool;      (* x == y *)
  fltb : float -> float -> bool       (* x < y *)
}.

Class PyMath (F : PyFloat) : Type := {
  log : float -> option float         (* math.log; None is a domain error *)
}.

(** [lt] is a strict weak order among the keys that are [good]: it is
    irreflexive and transitive, and a good key [y] stands above whatever
    is below [z], or below [z]. *)
Record strict_weak_on (K : Type) (good : K -> Prop) (lt : K -> K -> bool)
  : Prop := {
  sw_irrefl : forall x, lt x x = false;
  sw_trans : forall x y z, lt x y = true -> lt y z = true -> lt x z = true;
  sw_cotrans : forall x y z,
      good y -> lt x z = true -> lt x y = true \/ lt y z = true
}.

(** The laws of [<] and [==] on floats.  A float [x] with [x == x] is a
    number; the only floats that are not are the NaNs.  Among numbers [<]
    is a strict weak order and [==] its incomparability relation. *)
Class PyFloatCompare (F : PyFloat) : Prop := {
  fltb_irrefl : forall x, fltb x x = false;
  fltb_trans : forall x y z,
      fltb x y = true -> fltb y z = true -> fltb x z = true;
  fltb_cotrans : forall x y z,
      feqb y y = true -> fltb x z = true -> fltb x y = true \/ fltb y z = true;
  feqb_not_lt : forall x y, feqb x y = true -> fltb y x = false;
  feqb_sym : forall x y, feqb x y = true -> feqb y x = true;
  feqb_number : forall x y, feqb x y = true -> feqb x x = true;
  feqb_incomp : forall x y,
      feqb x x = true -> feqb y y = true ->
      fltb x y = false -> fltb y x = false -> feqb x y = true
}.

(** [x <= y] on floats: [x < y] or [x == y]; false when either is the
    NaN. *)
Definition fleb {F : PyFloat} (x y : float) : bool := fltb x y || feqb x y.

(** What the theorems on idf values need of [math.log]: it is 0 at 1,
    positive above 1 and never decreasing. *)
Class PyLogLaws (F : PyFloat) (M : PyMath F) : Prop := {
  log_one : log (of_int 1) = Some (of_int 0);
  log_positive : forall x v,
      fltb (of_int 1) x = true -> log x = Some v -> fltb (of_int 0) v = true;
  log_monotone : forall x y a b,
      fleb x y = true -> log x = Some a -> log y = Some b ->
      fleb a b = true
}.

(** [a] occurs at an earlier position than [b] in [l]. *)
Definition before (A : Type) (a b : A) (l : list A) : Prop :=
  exists l1 l2 l3, l = l1 ++ a :: l2 ++ b :: l3.

(** ** Document frequencies (the first loop of compute_idfs) *)

(** The inner loop, for one document. *)
Definition count_document (doc_frequency : Py.dict nat) (doc_words : list string)
  : Py.dict nat :=
  let unique_words := Py.to_set doc_words in
  fold_left
    (fun doc_frequency word =>
       Py.set doc_frequency word (Py.get_default doc_frequency word 0 + 1))
    unique_words doc_frequency.

Definition doc_frequency (documents : Py.dict (list string)) : Py.dict nat :=
  fold_left count_document (Py.values documents) [].

Section Core.

Context {F : PyFloat}.

(** [i / j] on ints *)
Definition int_truediv (i j : Z) : result float :=
  if (j =? 0)%Z then Raise ZeroDivisionError else Ok (truediv i j).

(** [sum(xs)] of floats, from the int 0, accumulated left to right
    (CPython 3.12 and later compensate the rounding errors of the
    additions, which only matters under rounding). *)
Definition fsum (xs : list float) : float :=
  fold_left fadd xs (of_int 0).

(** *** sorted(items, key=..., reverse=True)

    The sort is stable and compares keys with [<] only; under reverse an
    item moves ahead of another exactly when its key is greater.  The
    items are inserted right to left, each one in front of the items it
    does not rank below.  When [<] is a strict weak order on the keys
    every stable sort into non-increasing order returns this very list
    ([sorted_reverse_unique] below). *)
Section Sorted.
Variables (A K : Type) (key : A -> K) (lt : K -> K -> bool).

Fixpoint insert_reverse (x : A) (l : list A) : list A :=
  match l with
  | [] => [x]
  | y :: l' =>
      if lt (key x) (key y) then y :: insert_reverse x l' else x :: y :: l'
  end.

Definition sorted_reverse (l : list A) : list A :=
  fold_right insert_reverse [] l.
End Sorted.

(** *** compute_idfs *)

Section ComputeIdfs.
Context {M : PyMath F}.

(** [math.log(x)] *)
Definition math_log (x : float) : result float :=
  match log x with
  | Some y => Ok y
  | None => Raise ValueError
  end.

Definition compute_idfs (documents : Py.dict (list string))
  : result (Py.dict float) :=
  let num_documents := List.length documents in
  let doc_frequency := doc_frequency documents in
  for_each
    (fun idfs '(word, frequency) =>
       q <- int_truediv (Z.of_nat num_documents) (Z.of_nat frequency) ;;
       idf <- math_log q ;;
       Ok (Py.set idfs word idf))
    doc_frequency [].
End ComputeIdfs.

(** *** top_files *)

Definition tf_idf (query : list string) (file_words : list string)
           (idfs : Py.dict float) : float :=
  fold_left
    (fun tf_idf_sum word =>
       if Py.mem word file_words
       then fadd tf_idf_sum
              (fmul (of_int (Z.of_nat (Py.count word file_words)))
                    (Py.get_default idfs word (of_int 0)))
       else tf_idf_sum)
    query (of_int 0).

Definition file_scores (query : list string) (files : Py.dict (list string))
           (idfs : Py.dict float) : Py.dict float :=
  fold_left
    (fun file_scores '(filename, file_words) =>
       Py.set file_scores filename (tf_idf query file_words idfs))
    files [].

Definition top_files (query : list string) (files : Py.dict (list string))
           (idfs : Py.dict float) (n : Z) : list string :=
  let sorted_files := sorted_reverse snd fltb (file_scores query files idfs) in
  map fst (Py.slice_to sorted_files n).

(** *** top_sentences *)

Definition matching_word_measure (query words : list string)
           (idfs : Py.dict float) : float :=
  fsum (map (fun word => Py.get_default idfs word (of_int 0))
            (filter (fun word => Py.mem word words) query)).

Definition query_term_density (query words : list string) : result float :=
  int_truediv
    (Z.of_nat (List.length (filter (fun word => Py.mem word query) words)))
    (Z.of_nat (List.length words)).

Definition sentence_score (query words : list string) (idfs : Py.dict float)
  : result (float * float) :=
  let m := matching_word_measure query words idfs in
  d <- query_term_density query words ;;
  Ok (m, d).

Definition sentence_scores (query : list string)
           (sentences : Py.dict (list string)) (idfs : Py.dict float)
  : result (Py.dict (float * float)) :=
  for_each
    (fun sentence_scores '(sentence, words) =>
       s <- sentence_score query words idfs ;;
       Ok (Py.set sentence_scores sentence s))
    sentences [].

(** [a < b] on pairs of floats: the first components that differ decide. *)
Definition tuple_ltb (a b : float * float) : bool :=
  if feqb (fst a) (fst b)
  then if feqb (snd a) (snd b) then false else fltb (snd a) (snd b)
  else fltb (fst a) (fst b).

Definition top_sentences (query : list string)
           (sentences : Py.dict (list string)) (idfs : Py.dict float) (n : Z)
  : result (list string) :=
  scores <- sentence_scores query sentences idfs ;;
  let sorted_sentences := sorted_reverse snd tuple_ltb scores in
  Ok (map fst (Py.slice_to sorted_sentences n)).

End Core.

(** ** Binary64 *)

(** IEEE 754 binary64, round to nearest even.  An int operand is rounded
    to the nearest float; the quotient of two ints is the float quotient
    of their conversions, which is CPython's result when both are below
    2^53 in magnitude. *)
Definition b64_of_int (i : Z) : PrimFloat.float :=
  SF2Prim (binary_normalize prec emax i 0 false).

#[export] Instance B64 : PyFloat := {|
  float := PrimFloat.float;
  of_int := b64_of_int;
  fadd := PrimFloat.add;
  fmul := PrimFloat.mul;
  truediv := fun i j => PrimFloat.div (b64_of_int i) (b64_of_int j);
  feqb := PrimFloat.eqb;
  fltb := PrimFloat.ltb
|}.

(** [math.log] at the arguments of the sample runs, with the values
    CPython returns there; other arguments are outside this table. *)
Definition b64_sample_log (x : PrimFloat.float) : option PrimFloat.float :=
  if PrimFloat.eqb x 1 then Some 0%float
  else if PrimFloat.eqb x 0x1.8p+0 then Some 0x1.9f323ecbf984cp-2%float
  else if PrimFloat.eqb x 2 then Some 0x1.62e42fefa39efp-1%float
  else if PrimFloat.eqb x 3 then Some 0x1.193ea7aad030bp+0%float
  else None.

#[export] Instance B64SampleMath : PyMath B64 := {|
  log := b64_sample_log : @float B64 -> _
|}.

(** ** The order of binary64, through ranks *)

(** Floats that are numbers, ranked: the class (negative infinity,
    negative, zero, positive, positive infinity), then exponent and
    mantissa.  The comparison of two floats is that of their ranks. *)
Definition sf_rank (x : spec_float) : option (Z * (Z * Z)) :=
  match x with
  | S754_nan => None
  | S754_zero _ => Some (0, (0, 0))%Z
  | S754_infinity s => Some (if s then (-2) else 2, (0, 0))%Z
  | S754_finite s m e =>
      Some (if s then ((-1), (- e, Zneg m)) else (1, (e, Zpos m)))%Z
  end.

Definition lex_compare (a b : Z * (Z * Z)) : comparison :=
  match (fst a ?= fst b)%Z with
  | Eq => match (fst (snd a) ?= fst (snd b))%Z with
          | Eq => (snd (snd a) ?= snd (snd b))%Z
          | c => c
          end
  | c => c
  end.

Definition lex_lt (a b : Z * (Z * Z)) : Prop :=
  (fst a < fst b \/
   (fst a = fst b /\
    (fst (snd a) < fst (snd b) \/
     (fst (snd a) = fst (snd b) /\ snd (snd a) < snd (snd b)))))%Z.

(** ** Definitions used to state the properties *)

(** The number of documents whose words include [t]. *)
Definition df (t : string) (documents : Py.dict (list string)) : nat :=
  List.length (filter (fun doc => Py.mem t (snd doc)) documents).

(** The pair a sentence is scored with when its density is defined. *)
Definition score_pair {F : PyFloat} (query : list string) (idfs : Py.dict float)
           (words : list string) : float * float :=
  (matching_word_measure query words idfs,
   truediv
     (Z.of_nat (List.length (filter (fun word => Py.mem word query) words)))
     (Z.of_nat (List.length words))).

(** [f'] is the file [f] with the count of every term multiplied by [k]. *)
Definition scaled (k : nat) (f f' : string * list string) : Prop :=
  fst f' = fst f /\ forall t, Py.count t (snd f') = (k * Py.count t (snd f))%nat.

(** The float quotients N/f, f = 1..N, stand to 1 and to N as the exact
    quotients do: N/N is 1, N/1 is N, N/f is above 1 for f below N, and
    no N/f is above N. *)
Definition quotients_ordered {F : PyFloat} (N : nat) : Prop :=
  truediv (Z.of_nat N) (Z.of_nat N) = of_int 1 /\
  truediv (Z.of_nat N) 1 = of_int (Z.of_nat N) /\
  (forall f, (1 <= f < N)%nat ->
             fltb (of_int 1) (truediv (Z.of_nat N) (Z.of_nat f)) = true) /\
  (forall f, (1 <= f <= N)%nat ->
             fleb (truediv (Z.of_nat N) (Z.of_nat f)) (of_int (Z.of_nat N))
             = true).

(** A float that is a number: it equals itself, which the NaN does not. *)
Definition is_number {F : PyFloat} (x : float) : Prop := feqb x x = true.

(** A pair of numbers. *)
Definition pair_of_numbers {F : PyFloat} (p : float * float) : Prop :=
  is_number (fst p) /\ is_number (snd p).

(** Adding one document that holds the term does not raise the float
    quotient: (N+1)/(f+1) is at most N/f for f = 1..N. *)
Definition quotients_shrink {F : PyFloat} (N : nat) : Prop :=
  forall f, (1 <= f <= N)%nat ->
            fleb (truediv (Z.of_nat (N + 1)) (Z.of_nat (f + 1)))
                 (truediv (Z.of_nat N) (Z.of_nat f)) = true.

(** The two, decided on binary64 by running through f = 1..N. *)
Definition b64_quotients_check (N : nat) : bool :=
  Leibniz.eqb (@truediv B64 (Z.of_nat N) (Z.of_nat N)) (@of_int B64 1) &&
  Leibniz.eqb (@truediv B64 (Z.of_nat N) 1) (@of_int B64 (Z.of_nat N)) &&
  forallb (fun f => @fltb B64 (of_int 1) (truediv (Z.of_nat N) (Z.of_nat f)))
          (seq 1 (N - 1)) &&
  forallb (fun f => @fleb B64 (truediv (Z.of_nat N) (Z.of_nat f))
                               (of_int (Z.of_nat N)))
          (seq 1 N) &&
  forallb (fun f => @fleb B64 (truediv (Z.of_nat (N + 1)) (Z.of_nat (f + 1)))
                               (truediv (Z.of_nat N) (Z.of_nat f)))
          (seq 1 N).

(** [math.log] accepts every quotient N/f, f = 1..N. *)
Definition log_defined {F : PyFloat} {M : PyMath F} (N : nat) : Prop :=
  forall f, (1 <= f <= N)%nat ->
            log (truediv (Z.of_nat N) (Z.of_nat f)) <> None.

(** Multiplying by [k] commutes with every rounding in the score of a
    file: with each product count * idf and with each addition to the
    running sum [acc], along the query. *)
Fixpoint scales_exactly {F : PyFloat} (k : nat) (words : list string)
         (idfs : Py.dict float) (query : list string) (acc : float) : Prop :=
  match query with
  | [] => True
  | t :: query' =>
      if Py.mem t words then
        let c := Py.count t words in
        let idf := Py.get_default idfs t (of_int 0) in
        let p := fmul (of_int (Z.of_nat c)) idf in
        let K := of_int (Z.of_nat k) in
        fmul (of_int (Z.of_nat (k * c))) idf = fmul K p /\
        fadd (fmul K acc) (fmul K p) = fmul K (fadd acc p) /\
        scales_exactly k words idfs query' (fadd acc p)
      else scales_exactly k words idfs query' acc
  end.

(** ** Sample inputs *)

Definition example_documents : Py.dict (list string) :=
  [("a.txt", ["cat"; "sat"; "cat"]); ("b.txt", ["cat"; "mat"])]%string.

Definition example_query : list string := ["cat"; "dog"; "mat"]%string.

Definition example_idfs : Py.dict (@float B64) :=
  [("cat", 0%float); ("mat", 0x1.62e42fefa39efp-1%float)]%string.

Definition example_sentences : Py.dict (list string) :=
  [("The cat sat.", ["cat"; "sat"]); ("A cat, a cat.", ["cat"; "cat"])]%string.

(** A sentence without a query term, and two sentences with the same
    matching word measure and the densities 1/2 and 1. *)
Definition tie_sentences : Py.dict (list string) :=
  [("A dog.", ["dog"]); ("The cat sat.", ["cat"; "sat"]);
   ("A cat.", ["cat"])]%string.


Definition b64_idfs : Py.dict (@float B64) :=
  [("x", 0x1.999999999999ap-4%float); ("y", 0x1.3333333333333p-2%float)]%string.

Definition b64_cat_idfs : Py.dict (@float B64) :=
  [("cat", 0x1.999999999999ap-4%float)]%string.

Definition b64_files : Py.dict (list string) :=
  [("b.txt", ["y"]); ("a.txt", ["x"; "x"; "x"])]%string.

(** The idfs 0.1, 0.2, 0.3 and 0.6, and two files that score 0.6 and
    0.1 + 0.2 + 0.3. *)
Definition order_idfs : Py.dict (@float B64) :=
  [("x", 0x1.999999999999ap-4%float); ("y", 0x1.999999999999ap-3%float);
   ("z", 0x1.3333333333333p-2%float); ("w", 0x1.3333333333333p-1%float)]%string.

Definition order_files : Py.dict (list string) :=
  [("b.txt", ["w"]); ("a.txt", ["x"; "y"; "z"])]%string.

Definition b64_files_times_5 : Py.dict (list string) :=
  [("b.txt", repeat "y" 5); ("a.txt", repeat "x" 15)]%string.

(** * The rest of questions.py: tokenize, load_files, the loops of main

    The natural-language toolkit and the operating system are outside the
    program.  Their functions are parameters: [word_tokenize],
    [sent_tokenize] and the stopword list of nltk, [lower] for
    [str.lower], and for the file system [isdir], [listdir], [join]
    ([os.path.join]) and [read_text] (opening a file as utf-8 text and
    reading it), of which [listdir] and [read_text] may raise an
    exception, of type [E].  Of main the two loops that build its
    dictionaries are modelled, for the case that the calls into nltk
    return; reading the query and printing are not. *)

(** [needle in hay] on strings: [needle] is a contiguous part of [hay]. *)
Fixpoint str_contains (needle hay : string) : bool :=
  String.prefix needle hay ||
  match hay with
  | EmptyString => false
  | String _ hay' => str_contains needle hay'
  end.

(** [s.endswith(suffix)] *)
Definition endswith (s suffix : string) : bool :=
  let n := String.length s in
  let m := String.length suffix in
  (m <=? n)%nat && String.eqb (substring (n - m) m s) suffix.

(** [s.split(sep)] for a separator of one character: the pieces between
    the separators, empty ones included; never an empty list. *)
Fixpoint split_char (sep : Ascii.ascii) (s : string) : list string :=
  match s with
  | EmptyString => [EmptyString]
  | String c s' =>
      if Ascii.eqb c sep then EmptyString :: split_char sep s'
      else match split_char sep s' with
           | piece :: pieces => String c piece :: pieces
           | [] => [String c EmptyString]
           end
  end.

Definition newline : Ascii.ascii := Ascii.ascii_of_nat 10.

(** [string.punctuation]; the second character is the double quote. *)
Definition punctuation : string :=
  ("!" ++ String (Ascii.ascii_of_nat 34) "#$%&'()*+,-./:;<=>?@[\]^_`{|}~")%string.

Definition FILE_MATCHES : Z := 1.
Definition SENTENCE_MATCHES : Z := 1.

(** What load_files comes to: the dictionary, the ValueError it raises
    itself, or the exception that listing the directory, or opening and
    reading a file, raised (an OSError, or a UnicodeDecodeError for a file
    that is not utf-8). *)
Inductive loaded (E : Type) : Type :=
| Loaded (file_contents : Py.dict string)
| LoadValueError (message : string)
| LoadRaised (e : E).

Arguments Loaded {E} file_contents.
Arguments LoadValueError {E} message.
Arguments LoadRaised {E} e.

Section Program.

Variable word_tokenize : string -> list string.
Variable sent_tokenize : string -> list string.
Variable lower : string -> string.
Variable stopwords : list string.

Variable E : Type.
Variable isdir : string -> bool.
Variable listdir : string -> E + list string.
Variable join : string -> string -> string.
Variable read_text : string -> E + string.

(** *** tokenize *)

Definition tokenize (document : string) : list string :=
  let words := word_tokenize document in
  let words := map lower words in
  let words :=
    filter (fun word => negb (str_contains word punctuation)) words in
  let stop_words := Py.to_set stopwords in
  let words := filter (fun word => negb (Py.mem word stop_words)) words in
  words.

(** *** load_files *)

Fixpoint read_files (directory : string) (filenames : list string)
         (file_contents : Py.dict string) : loaded E :=
  match filenames with
  | [] => Loaded file_contents
  | filename :: filenames' =>
      if endswith filename ".txt" then
        let file_path := join directory filename in
        match read_text file_path with
        | inl e => LoadRaised e
        | inr text =>
            read_files directory filenames' (Py.set file_contents filename text)
        end
      else read_files directory filenames' file_contents
  end.

Definition load_files (directory : string) : loaded E :=
  if negb (isdir directory) then
    LoadValueError ("The directory '" ++ directory ++ "' does not exist.")
  else
    match listdir directory with
    | inl e => LoadRaised e
    | inr filenames => read_files directory filenames []
    end.

(** *** main: the dictionaries it builds *)

(** [file_words], the dict comprehension over the loaded files. *)
Definition file_words (files : Py.dict string) : Py.dict (list string) :=
  fold_left
    (fun file_words '(filename, text) =>
       Py.set file_words filename (tokenize text))
    files [].

(** The three nested loops that collect the sentences of the top files,
    from the innermost outwards.  [inl filename] stands for the KeyError
    of [files[filename]]. *)
Definition add_sentence (sentences : Py.dict (list string)) (sentence : string)
  : Py.dict (list string) :=
  let tokens := tokenize sentence in
  match tokens with
  | [] => sentences
  | _ :: _ => Py.set sentences sentence tokens
  end.

Definition add_passage (sentences : Py.dict (list string)) (passage : string)
  : Py.dict (list string) :=
  fold_left add_sentence (sent_tokenize passage) sentences.

Fixpoint extract_sentences (files : Py.dict string) (filenames : list string)
         (sentences : Py.dict (list string))
  : string + Py.dict (list string) :=
  match filenames with
  | [] => inr sentences
  | filename :: filenames' =>
      match Py.get files filename with
      | None => inl filename
      | Some text =>
          extract_sentences files filenames'
            (fold_left add_passage (split_char newline text) sentences)
      end
  end.

End Program.

(** A toy toolkit for the sample runs: every text is one word and one
    sentence, in lowercase already. *)
Definition one_word (s : string) : list string := [s].
Definition same (s : string) : string := s.

(** A toy file system: the directory corpus holds a.txt and notes.md, of
    which only a.txt can be read. *)
Definition sample_isdir (directory : string) : bool :=
  String.eqb directory "corpus".

Definition sample_listdir (directory : string) : unit + list string :=
  inr ["a.txt"; "notes.md"]%string.

Definition sample_join (directory filename : string) : string :=
  (directory ++ "/" ++ filename)%string.

Definition sample_read_text (path : string) : unit + string :=
  if String.eqb path "corpus/a.txt" then inr "cat"%string else inl tt.

(** ** Facts about the containers *)

Section DictFacts.
Variable V : Type.
Implicit Types (d : Py.dict V) (k : string) (v : V).

Lemma get_set_eq d k v : Py.get (Py.set d k v) k = Some v.
Proof.
  induction d as [|[k' v'] d IH]; simpl.
  - now rewrite String.eqb_refl.
  - destruct (String.eqb k' k) eqn:E; simpl; rewrite E; auto.
Qed.

Lemma get_set_neq d k k' v :
  k <> k' -> Py.get (Py.set d k v) k' = Py.get d k'.
Proof.
  intros Hne. induction d as [|[k0 v0] d IH]; simpl.
  - apply String.eqb_neq in Hne. now rewrite Hne.
  - destruct (String.eqb k0 k) eqn:E; simpl.
    + apply String.eqb_eq in E; subst k0.
      apply String.eqb_neq in Hne. now rewrite Hne.
    + now rewrite IH.
Qed.

Lemma get_In_keys d k : Py.get d k <> None <-> In k (Py.keys d).
Proof.
  induction d as [|[k' v'] d IH]; simpl.
  - tauto.
  - destruct (String.eqb k' k) eqn:E.
    + apply String.eqb_eq in E. split; [auto | discriminate].
    + apply String.eqb_neq in E. rewrite IH. tauto.
Qed.

Lemma get_None_keys d k : Py.get d k = None <-> ~ In k (Py.keys d).
Proof.
  rewrite <- get_In_keys. destruct (Py.get d k); split; intro H; try easy.
  exfalso; apply H; discriminate.
Qed.

Lemma keys_set d k v :
  Py.keys (Py.set d k v) =
  match Py.get d k with Some _ => Py.keys d | None => Py.keys d ++ [k] end.
Proof.
  induction d as [|[k' v'] d IH]; simpl; auto.
  destruct (String.eqb k' k) eqn:E; simpl; auto.
  rewrite IH. now destruct (Py.get d k).
Qed.

Lemma wf_set d k v : Py.wf d -> Py.wf (Py.set d k v).
Proof.
  unfold Py.wf. intros Hd. rewrite keys_set.
  destruct (Py.get d k) eqn:E; auto.
  apply get_None_keys in E.
  apply NoDup_app; auto.
  - repeat constructor; simpl; tauto.
  - intros x Hx [<-|[]]. tauto.
Qed.

Lemma get_wf_In d k v : Py.wf d -> In (k, v) d -> Py.get d k = Some v.
Proof.
  unfold Py.wf. induction d as [|[k' v'] d IH]; simpl; [tauto|].
  intros Hd [Heq|Hin].
  - inversion Heq; subst. now rewrite String.eqb_refl.
  - inversion Hd as [|? ? Hnin Hd']; subst.
    destruct (String.eqb k' k) eqn:E; auto.
    apply String.eqb_eq in E; subst k'.
    exfalso; apply Hnin. change k with (fst (k, v)). now apply in_map.
Qed.
End DictFacts.

Lemma mem_In w l : Py.mem w l = true <-> In w l.
Proof.
  unfold Py.mem. rewrite existsb_exists. split.
  - intros (x & Hx & E). apply String.eqb_eq in E. now subst.
  - intros H. exists w. split; auto. apply String.eqb_refl.
Qed.

Lemma mem_false w l : Py.mem w l = false <-> ~ In w l.
Proof.
  rewrite <- mem_In. destruct (Py.mem w l); split; intro H; try easy.
Qed.

Lemma to_set_In w l : In w (Py.to_set l) <-> In w l.
Proof.
  induction l as [|x l IH]; simpl; [tauto|].
  destruct (Py.mem x l) eqn:E.
  - apply mem_In in E. rewrite IH. split; auto. intros [<-|H]; auto.
  - simpl. rewrite IH. tauto.
Qed.

Lemma to_set_NoDup l : NoDup (Py.to_set l).
Proof.
  induction l as [|x l IH]; simpl; [constructor|].
  destruct (Py.mem x l) eqn:E; auto.
  constructor; auto. rewrite to_set_In. now apply mem_false.
Qed.

Lemma count_pos w l : (0 < Py.count w l)%nat <-> In w l.
Proof.
  induction l as [|x l IH]; simpl; [split; [lia|tauto]|].
  destruct (String.eqb x w) eqn:E.
  - apply String.eqb_eq in E. split; [auto|lia].
  - apply String.eqb_neq in E. rewrite IH. simpl. tauto.
Qed.

(** ** Document frequency *)

Lemma df_cons t doc documents :
  df t (doc :: documents) =
  ((if Py.mem t (snd doc) then 1 else 0) + df t documents)%nat.
Proof. unfold df. simpl. now destruct (Py.mem t (snd doc)). Qed.

Lemma df_app t docs1 docs2 : df t (docs1 ++ docs2) = (df t docs1 + df t docs2)%nat.
Proof. unfold df. now rewrite filter_app, length_app. Qed.

Lemma df_le_length t documents : (df t documents <= List.length documents)%nat.
Proof. apply filter_length_le. Qed.

Lemma df_pos t documents :
  (0 < df t documents)%nat <-> exists doc, In doc documents /\ In t (snd doc).
Proof.
  induction documents as [|doc docs IH]; simpl.
  - unfold df; simpl. split; [lia | intros (? & [] & _)].
  - rewrite df_cons. destruct (Py.mem t (snd doc)) eqn:E.
    + apply mem_In in E. split; [|lia]. intros _. exists doc. auto.
    + apply mem_false in E. simpl. rewrite IH. split.
      * intros (d & Hd & Ht). exists d. auto.
      * intros (d & [<-|Hd] & Ht); [tauto|]. exists d. auto.
Qed.

Lemma df_full t documents :
  df t documents = List.length documents <->
  forall doc, In doc documents -> In t (snd doc).
Proof.
  induction documents as [|doc docs IH].
  - unfold df; simpl. split; [intros _ ? [] | reflexivity].
  - rewrite df_cons. simpl List.length. pose proof (df_le_length t docs) as Hle.
    destruct (Py.mem t (snd doc)) eqn:E.
    + apply mem_In in E. split.
      * intros H d [<-|Hd]; [assumption|]. apply IH; [lia|assumption].
      * intros H. simpl. f_equal. apply IH. intros d Hd. apply H. now right.
    + apply mem_false in E. split; [lia|].
      intros H. exfalso. apply E, H. now left.
Qed.

Lemma count_words_get (l : list string) (d : Py.dict nat) (t : string) :
  NoDup l ->
  Py.get
    (fold_left
       (fun doc_frequency word =>
          Py.set doc_frequency word (Py.get_default doc_frequency word 0 + 1))
       l d) t =
  if Py.mem t l then Some (Py.get_default d t 0 + 1)%nat else Py.get d t.
Proof.
  intros Hl. revert d. induction Hl as [|x l Hx Hl IH]; intros d; simpl; auto.
  rewrite IH. destruct (String.eqb t x) eqn:E; simpl.
  - apply String.eqb_eq in E; subst x.
    apply mem_false in Hx. rewrite Hx. apply get_set_eq.
  - apply String.eqb_neq in E.
    assert (Hget : Py.get (Py.set d x (Py.get_default d x 0 + 1)%nat) t = Py.get d t)
      by (apply get_set_neq; congruence).
    unfold Py.get_default at 1. rewrite Hget. reflexivity.
Qed.

Lemma count_document_get d doc_words t :
  Py.get (count_document d doc_words) t =
  if Py.mem t doc_words then Some (Py.get_default d t 0 + 1)%nat else Py.get d t.
Proof.
  unfold count_document. rewrite count_words_get by apply to_set_NoDup.
  destruct (Py.mem t doc_words) eqn:E.
  - apply mem_In, to_set_In, mem_In in E. now rewrite E.
  - assert (E' : Py.mem t (Py.to_set doc_words) = false).
    { apply mem_false. rewrite to_set_In. now apply mem_false. }
    now rewrite E'.
Qed.

Lemma count_document_wf d doc_words : Py.wf d -> Py.wf (count_document d doc_words).
Proof.
  unfold count_document. generalize (Py.to_set doc_words) as l.
  intros l; revert d. induction l as [|x l IH]; intros d Hd; simpl; auto.
  apply IH. now apply wf_set.
Qed.

Lemma doc_frequency_acc documents d t :
  Py.get (fold_left count_document (Py.values documents) d) t =
  match df t documents with
  | O => Py.get d t
  | S c => Some (Py.get_default d t 0 + S c)%nat
  end.
Proof.
  revert d. induction documents as [|[name ws] docs IH]; intros d; simpl; auto.
  rewrite IH, df_cons. simpl snd.
  unfold Py.get_default at 1. rewrite count_document_get.
  destruct (Py.mem t ws); simpl.
  - destruct (df t docs); f_equal; lia.
  - destruct (df t docs); auto.
Qed.

(** The dictionary built by the first loop holds, for every word, the
    number of documents that contain it, and nothing for other words. *)
Lemma doc_frequency_get documents t :
  Py.get (doc_frequency documents) t =
  match df t documents with O => None | S c => Some (S c) end.
Proof.
  unfold doc_frequency. rewrite doc_frequency_acc. simpl.
  destruct (df t documents); auto.
Qed.

Lemma doc_frequency_wf documents : Py.wf (doc_frequency documents).
Proof.
  unfold doc_frequency.
  assert (H : Py.wf (@nil (string * nat))) by constructor.
  revert H. generalize (@nil (string * nat)) as d.
  unfold Py.values. induction documents as [|doc docs IH]; intros d Hd; simpl; auto.
  apply IH. now apply count_document_wf.
Qed.

Lemma doc_frequency_items documents w f :
  In (w, f) (doc_frequency documents) ->
  f = df w documents /\ (0 < f <= List.length documents)%nat.
Proof.
  intros Hin. apply get_wf_In in Hin; [|apply doc_frequency_wf].
  rewrite doc_frequency_get in Hin. pose proof (df_le_length w documents).
  destruct (df w documents) eqn:E; [discriminate|].
  injection Hin as <-. lia.
Qed.

Lemma set_fresh (V : Type) (d : Py.dict V) k v :
  ~ In k (Py.keys d) -> Py.set d k v = d ++ [(k, v)].
Proof.
  induction d as [|[k' v'] d IH]; simpl; auto.
  intros Hnin. destruct (String.eqb k' k) eqn:E.
  - apply String.eqb_eq in E. tauto.
  - f_equal. apply IH. tauto.
Qed.

Lemma df_permutation t (documents documents' : Py.dict (list string)) :
  Permutation documents documents' -> df t documents = df t documents'.
Proof.
  induction 1 as [|doc l l' _ IH|d1 d2 l|l1 l2 l3 _ IH1 _ IH2].
  - reflexivity.
  - rewrite !df_cons. now rewrite IH.
  - rewrite !df_cons. lia.
  - congruence.
Qed.

(** ** compute_idfs in every arithmetic *)

Section IdfsFacts.
Context {F : PyFloat} {M : PyMath F}.

Lemma idf_step (N : nat) (acc : Py.dict float) (w : string) (f : nat) :
  f <> 0%nat ->
  (q <- int_truediv (Z.of_nat N) (Z.of_nat f) ;;
   idf <- math_log q ;;
   Ok (Py.set acc w idf))
  = match log (truediv (Z.of_nat N) (Z.of_nat f)) with
    | Some v => Ok (Py.set acc w v)
    | None => Raise ValueError
    end.
Proof.
  intros Hf. unfold int_truediv.
  destruct (Z.eqb_spec (Z.of_nat f) 0) as [E|_]; [lia|].
  simpl. unfold math_log.
  now destruct (log (truediv (Z.of_nat N) (Z.of_nat f))).
Qed.

Lemma idf_loop_Ok (N : nat) (items : Py.dict nat) (acc r : Py.dict float) :
  (forall w f, In (w, f) items -> f <> 0%nat) ->
  NoDup (Py.keys acc ++ Py.keys items) ->
  for_each
    (fun idfs '(word, frequency) =>
       q <- int_truediv (Z.of_nat N) (Z.of_nat frequency) ;;
       idf <- math_log q ;;
       Ok (Py.set idfs word idf))
    items acc = Ok r ->
  Py.keys r = Py.keys acc ++ Py.keys items /\
  forall t,
    Py.get r t =
    match Py.get items t with
    | Some f => log (truediv (Z.of_nat N) (Z.of_nat f))
    | None => Py.get acc t
    end.
Proof.
  revert acc. induction items as [|[w f] items IH]; intros acc Hpos Hnd; simpl.
  - intros [= <-]. now rewrite app_nil_r.
  - rewrite idf_step by (apply (Hpos w); now left).
    destruct (log (truediv (Z.of_nat N) (Z.of_nat f))) as [v|] eqn:Hlog;
      simpl; [|discriminate].
    simpl in Hnd.
    assert (Hfresh : ~ In w (Py.keys acc)).
    { apply NoDup_remove_2 in Hnd. intros Hin. apply Hnd.
      apply in_or_app. now left. }
    assert (Hrest : ~ In w (Py.keys items)).
    { apply NoDup_remove_2 in Hnd. intros Hin. apply Hnd.
      apply in_or_app. now right. }
    rewrite (@set_fresh _ acc w v Hfresh).
    intros Hr. apply IH in Hr.
    + destruct Hr as [Hkeys Hget]. split.
      * rewrite Hkeys. unfold Py.keys. rewrite map_app, <- app_assoc.
        reflexivity.
      * intros t. rewrite Hget. destruct (String.eqb w t) eqn:E.
        -- apply String.eqb_eq in E. subst t.
           apply get_None_keys in Hrest. rewrite Hrest.
           rewrite <- (@set_fresh _ acc w v Hfresh), get_set_eq. now rewrite Hlog.
        -- apply String.eqb_neq in E.
           rewrite <- (@set_fresh _ acc w v Hfresh), get_set_neq by assumption.
           reflexivity.
    + intros w' f' Hin. apply (Hpos w'). now right.
    + unfold Py.keys in *. rewrite map_app, <- app_assoc. exact Hnd.
Qed.

Lemma idf_loop_defined (N : nat) (items : Py.dict nat) (acc : Py.dict float) :
  (forall w f, In (w, f) items ->
               f <> 0%nat /\ log (truediv (Z.of_nat N) (Z.of_nat f)) <> None) ->
  exists r,
    for_each
      (fun idfs '(word, frequency) =>
         q <- int_truediv (Z.of_nat N) (Z.of_nat frequency) ;;
         idf <- math_log q ;;
         Ok (Py.set idfs word idf))
      items acc = Ok r.
Proof.
  revert acc. induction items as [|[w f] items IH]; intros acc H; simpl.
  - now exists acc.
  - destruct (H w f) as [Hf Hlog]; [now left|].
    rewrite idf_step by assumption.
    destruct (log (truediv (Z.of_nat N) (Z.of_nat f))) as [v|]; [|congruence].
    simpl. apply IH. intros w' f' Hin. apply (H w'). now right.
Qed.

Lemma idf_loop_Raise (N : nat) (items : Py.dict nat) (acc : Py.dict float) e :
  (forall w f, In (w, f) items -> f <> 0%nat) ->
  for_each
    (fun idfs '(word, frequency) =>
       q <- int_truediv (Z.of_nat N) (Z.of_nat frequency) ;;
       idf <- math_log q ;;
       Ok (Py.set idfs word idf))
    items acc = Raise e ->
  e = ValueError /\
  exists w f, In (w, f) items /\ log (truediv (Z.of_nat N) (Z.of_nat f)) = None.
Proof.
  revert acc. induction items as [|[w f] items IH]; intros acc Hpos; simpl.
  - discriminate.
  - rewrite idf_step by (apply (Hpos w); now left).
    destruct (log (truediv (Z.of_nat N) (Z.of_nat f))) as [v|] eqn:Hlog; simpl.
    + intros Hr. apply IH in Hr.
      * destruct Hr as (-> & w' & f' & Hin & Hnone). split; auto.
        exists w', f'. auto.
      * intros w' f' Hin. apply (Hpos w'). now right.
    + intros [= <-]. split; auto. exists w, f. auto.
Qed.

(** The table compute_idfs returns, entry by entry. *)
Lemma compute_idfs_Ok (documents : Py.dict (list string)) (idfs : Py.dict float) :
  compute_idfs documents = Ok idfs ->
  Py.keys idfs = Py.keys (doc_frequency documents) /\
  Py.wf idfs /\
  forall t,
    Py.get idfs t =
    match df t documents with
    | O => None
    | S c => log (truediv (Z.of_nat (List.length documents)) (Z.of_nat (S c)))
    end.
Proof.
  unfold compute_idfs. intros H. apply idf_loop_Ok in H.
  - destruct H as [Hkeys Hget]. simpl in Hkeys. split; [assumption|].
    split; [unfold Py.wf; rewrite Hkeys; apply doc_frequency_wf|].
    intros t. rewrite Hget, doc_frequency_get.
    now destruct (df t documents).
  - intros w f Hin. apply doc_frequency_items in Hin. lia.
  - simpl. apply doc_frequency_wf.
Qed.

Lemma compute_idfs_defined (documents : Py.dict (list string)) :
  log_defined (List.length documents) ->
  exists idfs, compute_idfs documents = Ok idfs.
Proof.
  intros Hdef. unfold compute_idfs. apply idf_loop_defined.
  intros w f Hin. apply doc_frequency_items in Hin as [_ Hf].
  split; [lia|]. apply Hdef. lia.
Qed.

Lemma compute_idfs_Raise (documents : Py.dict (list string)) (e : exn) :
  compute_idfs documents = Raise e ->
  e = ValueError /\
  exists t,
    (1 <= df t documents)%nat /\
    log (truediv (Z.of_nat (List.length documents))
                 (Z.of_nat (df t documents))) = None.
Proof.
  unfold compute_idfs. intros H. apply idf_loop_Raise in H.
  - destruct H as (-> & w & f & Hin & Hnone). split; auto.
    apply doc_frequency_items in Hin as [-> Hf]. exists w. split; [lia|auto].
  - intros w f Hin. apply doc_frequency_items in Hin. lia.
Qed.

(** compute_idfs returns exactly when [math.log] accepts the quotient of
    every term that occurs. *)
Lemma compute_idfs_Ok_iff (documents : Py.dict (list string)) :
  (exists idfs, compute_idfs documents = Ok idfs) <->
  forall t, (1 <= df t documents)%nat ->
            log (truediv (Z.of_nat (List.length documents))
                         (Z.of_nat (df t documents))) <> None.
Proof.
  split.
  - intros [idfs Hok] t Ht.
    destruct (compute_idfs_Ok _ Hok) as (Hkeys & _ & Hget).
    specialize (Hget t).
    assert (Hin : Py.get idfs t <> None).
    { apply get_In_keys. rewrite Hkeys. apply get_In_keys.
      rewrite doc_frequency_get. destruct (df t documents); [lia|discriminate]. }
    destruct (df t documents) as [|c]; [lia|]. congruence.
  - intros Hdef. destruct (compute_idfs documents) as [idfs|e] eqn:E; eauto.
    apply compute_idfs_Raise in E as (_ & t & Ht & Hnone).
    exfalso. now apply (Hdef t).
Qed.

End IdfsFacts.

(** ** The comparisons of binary64 *)

Lemma SFcompare_rank (x y : spec_float) :
  SFcompare x y =
  match sf_rank x, sf_rank y with
  | Some a, Some b => Some (lex_compare a b)
  | _, _ => None
  end.
Proof.
  destruct x as [sx|sx| |sx mx ex]; destruct y as [sy|sy| |sy my ey];
    try reflexivity;
    try (destruct sx; reflexivity);
    try (destruct sy; reflexivity);
    try (destruct sx, sy; reflexivity).
  destruct sx, sy; try reflexivity; unfold lex_compare; simpl.
  rewrite Z.compare_opp, (Z.compare_antisym ex ey).
  destruct (ex ?= ey)%Z; reflexivity.
Qed.

Lemma lex_compare_Lt (a b : Z * (Z * Z)) : lex_compare a b = Lt <-> lex_lt a b.
Proof.
  destruct a as [a1 [a2 a3]], b as [b1 [b2 b3]].
  unfold lex_compare, lex_lt. simpl.
  destruct (Z.compare_spec a1 b1), (Z.compare_spec a2 b2),
    (Z.compare_spec a3 b3); split; intros Hgoal; try discriminate;
    try reflexivity; lia.
Qed.

Lemma lex_compare_Eq (a b : Z * (Z * Z)) : lex_compare a b = Eq <-> a = b.
Proof.
  destruct a as [a1 [a2 a3]], b as [b1 [b2 b3]].
  unfold lex_compare. simpl.
  destruct (Z.compare_spec a1 b1), (Z.compare_spec a2 b2),
    (Z.compare_spec a3 b3); split; intros Hgoal; try discriminate;
    try reflexivity; try (injection Hgoal; lia); subst; reflexivity.
Qed.

Lemma b64_ltb_iff (x y : PrimFloat.float) :
  PrimFloat.ltb x y = true <->
  exists a b, sf_rank (Prim2SF x) = Some a /\ sf_rank (Prim2SF y) = Some b /\
              lex_lt a b.
Proof.
  rewrite ltb_spec. unfold SFltb. rewrite SFcompare_rank.
  destruct (sf_rank (Prim2SF x)) as [a|], (sf_rank (Prim2SF y)) as [b|].
  - destruct (lex_compare a b) eqn:E.
    + split; [discriminate|]. intros (a' & b' & [= <-] & [= <-] & H).
      apply lex_compare_Lt in H. congruence.
    + split; [|reflexivity]. intros _. exists a, b.
      repeat split. now apply lex_compare_Lt.
    + split; [discriminate|]. intros (a' & b' & [= <-] & [= <-] & H).
      apply lex_compare_Lt in H. congruence.
  - split; [discriminate|]. intros (a' & b' & _ & H & _). discriminate.
  - split; [discriminate|]. intros (a' & b' & H & _). discriminate.
  - split; [discriminate|]. intros (a' & b' & H & _). discriminate.
Qed.

Lemma b64_eqb_iff (x y : PrimFloat.float) :
  PrimFloat.eqb x y = true <->
  exists a, sf_rank (Prim2SF x) = Some a /\ sf_rank (Prim2SF y) = Some a.
Proof.
  rewrite eqb_spec. unfold SFeqb. rewrite SFcompare_rank.
  destruct (sf_rank (Prim2SF x)) as [a|], (sf_rank (Prim2SF y)) as [b|].
  - destruct (lex_compare a b) eqn:E.
    + apply lex_compare_Eq in E. subst b. split; eauto.
    + split; [discriminate|]. intros (c & H1 & H2).
      assert (a = b) by congruence. subst b.
      rewrite (proj2 (lex_compare_Eq a a) eq_refl) in E. discriminate.
    + split; [discriminate|]. intros (c & H1 & H2).
      assert (a = b) by congruence. subst b.
      rewrite (proj2 (lex_compare_Eq a a) eq_refl) in E. discriminate.
  - split; [discriminate|]. intros (c & _ & H). discriminate.
  - split; [discriminate|]. intros (c & H & _). discriminate.
  - split; [discriminate|]. intros (c & H & _). discriminate.
Qed.

Lemma b64_ltb_false (x y : PrimFloat.float) (a b : Z * (Z * Z)) :
  sf_rank (Prim2SF x) = Some a -> sf_rank (Prim2SF y) = Some b ->
  PrimFloat.ltb x y = false -> ~ lex_lt a b.
Proof.
  intros Hx Hy Hlt H.
  assert (E : PrimFloat.ltb x y = true) by (apply b64_ltb_iff; eauto).
  congruence.
Qed.

(** Binary64 keeps the laws of the comparisons. *)
#[export] Instance B64Compare : PyFloatCompare B64.
Proof.
  constructor; simpl.
  - intros x. destruct (PrimFloat.ltb x x) eqn:E; auto.
    apply b64_ltb_iff in E as (a & b & Ha & Hb & H).
    assert (a = b) by congruence. subst. unfold lex_lt in H. lia.
  - intros x y z Hxy Hyz.
    apply b64_ltb_iff in Hxy as (a & b & Ha & Hb & H1).
    apply b64_ltb_iff in Hyz as (b' & c & Hb' & Hc & H2).
    assert (b' = b) by congruence. subst.
    apply b64_ltb_iff. exists a, c. repeat split; auto.
    unfold lex_lt in *. lia.
  - intros x y z Hy Hxz.
    apply b64_eqb_iff in Hy as (b & Hb & _).
    apply b64_ltb_iff in Hxz as (a & c & Ha & Hc & H).
    assert (D : lex_lt a b \/ lex_lt b c) by (unfold lex_lt in *; lia).
    destruct D as [D|D]; [left|right]; apply b64_ltb_iff; eauto 6.
  - intros x y Heq. apply b64_eqb_iff in Heq as (a & Ha & Hb).
    destruct (PrimFloat.ltb y x) eqn:E; auto.
    apply b64_ltb_iff in E as (b & c & Hb' & Hc & H).
    assert (b = a) by congruence. assert (c = a) by congruence. subst.
    unfold lex_lt in H. lia.
  - intros x y Heq. apply b64_eqb_iff in Heq as (a & Ha & Hb).
    apply b64_eqb_iff. eauto.
  - intros x y Heq. apply b64_eqb_iff in Heq as (a & Ha & Hb).
    apply b64_eqb_iff. eauto.
  - intros x y Hx Hy Hxy Hyx.
    apply b64_eqb_iff in Hx as (a & Ha & _).
    apply b64_eqb_iff in Hy as (b & Hb & _).
    pose proof (b64_ltb_false Ha Hb Hxy) as H1.
    pose proof (b64_ltb_false Hb Ha Hyx) as H2.
    apply b64_eqb_iff. exists a. split; auto. rewrite Hb. f_equal.
    destruct a as [a1 [a2 a3]], b as [b1 [b2 b3]].
    unfold lex_lt in *. simpl in *.
    assert (a1 = b1 /\ a2 = b2 /\ a3 = b3) as (-> & -> & ->) by lia.
    reflexivity.
Qed.

(** ** Consequences of the laws of the comparisons *)

Section CompareFacts.
Context {F : PyFloat} {C : PyFloatCompare F}.

Lemma fltb_asym x y : fltb x y = true -> fltb y x = false.
Proof.
  intros Hxy. destruct (fltb y x) eqn:E; auto.
  pose proof (fltb_trans _ _ _ Hxy E) as Hxx.
  rewrite fltb_irrefl in Hxx. discriminate.
Qed.

Lemma fltb_ge_trans x y z :
  feqb y y = true -> fltb x y = false -> fltb y z = false -> fltb x z = false.
Proof.
  intros Hy Hxy Hyz. destruct (fltb x z) eqn:E; auto.
  destruct (fltb_cotrans x y z Hy E); congruence.
Qed.

Lemma feqb_not_lt' x y : feqb x y = true -> fltb x y = false.
Proof. intros H. apply feqb_not_lt. now apply feqb_sym. Qed.

Lemma feqb_number_r x y : feqb x y = true -> feqb y y = true.
Proof. intros H. apply feqb_sym in H. eapply feqb_number; eauto. Qed.

Lemma feqb_false_or x y :
  feqb x x = true -> feqb y y = true -> feqb x y = false ->
  fltb x y = true \/ fltb y x = true.
Proof.
  intros Hx Hy E. destruct (fltb x y) eqn:E1; auto.
  destruct (fltb y x) eqn:E2; auto.
  rewrite (feqb_incomp _ _ Hx Hy E1 E2) in E. discriminate.
Qed.

Lemma feqb_trans x y z : feqb x y = true -> feqb y z = true -> feqb x z = true.
Proof.
  intros Hxy Hyz.
  pose proof (feqb_number _ _ Hxy) as Hx.
  pose proof (feqb_number_r _ _ Hxy) as Hy.
  pose proof (feqb_number_r _ _ Hyz) as Hz.
  apply feqb_incomp; auto.
  - apply fltb_ge_trans with y; auto using feqb_not_lt'.
  - apply fltb_ge_trans with y; auto using feqb_not_lt.
Qed.

(** [<] does not tell apart floats that are [==]. *)
Lemma fltb_feqb_l x x' y : feqb x x' = true -> fltb x y = fltb x' y.
Proof.
  intros H.
  pose proof (feqb_number _ _ H) as Hx. pose proof (feqb_number_r _ _ H) as Hx'.
  destruct (fltb x y) eqn:E1, (fltb x' y) eqn:E2; auto.
  - destruct (fltb_cotrans x x' y Hx' E1) as [H1|H1]; [|congruence].
    rewrite (feqb_not_lt' _ _ H) in H1. discriminate.
  - destruct (fltb_cotrans x' x y Hx E2) as [H1|H1]; [|congruence].
    rewrite (feqb_not_lt _ _ H) in H1. discriminate.
Qed.

Lemma fltb_feqb_r x y y' : feqb y y' = true -> fltb x y = fltb x y'.
Proof.
  intros H.
  pose proof (feqb_number _ _ H) as Hy. pose proof (feqb_number_r _ _ H) as Hy'.
  destruct (fltb x y) eqn:E1, (fltb x y') eqn:E2; auto.
  - destruct (fltb_cotrans x y' y Hy' E1) as [H1|H1]; [congruence|].
    rewrite (feqb_not_lt _ _ H) in H1. discriminate.
  - destruct (fltb_cotrans x y y' Hy E2) as [H1|H1]; [congruence|].
    rewrite (feqb_not_lt' _ _ H) in H1. discriminate.
Qed.

Lemma fltb_strict_weak_on : strict_weak_on (fun x => feqb x x = true) fltb.
Proof.
  constructor.
  - apply fltb_irrefl.
  - apply fltb_trans.
  - apply fltb_cotrans.
Qed.

End CompareFacts.

(** ** The sample table of math.log keeps the laws of the logarithm *)

Lemma b64_sample_log_cases (x v : PrimFloat.float) :
  b64_sample_log x = Some v ->
  exists t, PrimFloat.eqb x t = true /\ b64_sample_log t = Some v /\
            In t [1; 0x1.8p+0; 2; 3]%float.
Proof.
  unfold b64_sample_log.
  destruct (PrimFloat.eqb x 1) eqn:E1;
    [intros [= <-]; exists 1%float; repeat split; simpl; auto|].
  destruct (PrimFloat.eqb x 0x1.8p+0) eqn:E2;
    [intros [= <-]; exists 0x1.8p+0%float; repeat split; simpl; auto|].
  destruct (PrimFloat.eqb x 2) eqn:E3;
    [intros [= <-]; exists 2%float; repeat split; simpl; auto|].
  destruct (PrimFloat.eqb x 3) eqn:E4;
    [intros [= <-]; exists 3%float; repeat split; simpl; auto 6|].
  discriminate.
Qed.

Section LeFacts.
Context {F : PyFloat} {C : PyFloatCompare F}.

Lemma fleb_true x y :
  fleb x y = true <-> fltb x y = true \/ feqb x y = true.
Proof. unfold fleb. apply orb_true_iff. Qed.

Lemma fleb_refl x : is_number x -> fleb x x = true.
Proof. intros H. apply fleb_true. now right. Qed.

(** [<=] does not tell apart floats that are [==]. *)
Lemma fleb_feqb x x' y y' :
  feqb x x' = true -> feqb y y' = true -> fleb x y = true -> fleb x' y' = true.
Proof.
  intros Hx Hy. rewrite !fleb_true. intros [H|H].
  - left. now rewrite <- (fltb_feqb_l _ _ y' Hx), <- (fltb_feqb_r x _ _ Hy).
  - right. apply feqb_trans with x; [now apply feqb_sym|].
    now apply feqb_trans with y.
Qed.

End LeFacts.

#[export] Instance B64SampleLogLaws : PyLogLaws B64SampleMath.
Proof.
  constructor.
  - vm_compute. reflexivity.
  - intros x v Hlt Hlog. simpl in *.
    apply b64_sample_log_cases in Hlog as (t & Heq & Hlog & Hin).
    rewrite (fltb_feqb_r (F:=B64) _ _ _ Heq) in Hlt.
    simpl in Hin, Hlt.
    destruct Hin as [<-|[<-|[<-|[<-|[]]]]]; vm_compute in Hlog, Hlt;
      try discriminate; injection Hlog as <-; vm_compute; reflexivity.
  - intros x y a b Hle Hx Hy. simpl in Hx, Hy.
    apply b64_sample_log_cases in Hx as (tx & Heqx & Hx & Hinx).
    apply b64_sample_log_cases in Hy as (ty & Heqy & Hy & Hiny).
    apply (fleb_feqb (F:=B64) _ _ _ _ Heqx Heqy) in Hle.
    simpl in Hinx, Hiny.
    destruct Hinx as [<-|[<-|[<-|[<-|[]]]]];
      destruct Hiny as [<-|[<-|[<-|[<-|[]]]]];
      vm_compute in Hx, Hy, Hle; try discriminate;
      injection Hx as <-; injection Hy as <-; vm_compute; reflexivity.
Qed.

(** ** Facts about [before] *)

Section BeforeFacts.
Variables A B : Type.

Lemma before_cons (x a b : A) l : before a b l -> before a b (x :: l).
Proof.
  intros (l1 & l2 & l3 & ->). now exists (x :: l1), l2, l3.
Qed.

Lemma before_head (a b : A) l : In b l -> before a b (a :: l).
Proof.
  intros Hin. apply in_split in Hin as (l2 & l3 & ->). now exists [], l2, l3.
Qed.

Lemma before_cons_inv (x a b : A) l :
  before a b (x :: l) -> (x = a /\ In b l) \/ before a b l.
Proof.
  intros (l1 & l2 & l3 & E). destruct l1 as [|y l1]; simpl in E.
  - injection E as -> ->. left. split; auto.
    apply in_or_app. right. now left.
  - injection E as -> ->. right. now exists l1, l2, l3.
Qed.

Lemma before_In (a b : A) l : before a b l -> In a l /\ In b l.
Proof.
  intros (l1 & l2 & l3 & ->). split.
  - apply in_or_app. right. now left.
  - apply in_or_app. right. right. apply in_or_app. right. now left.
Qed.

Lemma before_firstn (a b : A) n l : before a b (firstn n l) -> before a b l.
Proof.
  intros (l1 & l2 & l3 & E). exists l1, l2, (l3 ++ skipn n l).
  rewrite <- (firstn_skipn n l) at 1. rewrite E.
  now rewrite <- !app_assoc, <- !app_comm_cons, <- app_assoc, <- app_comm_cons.
Qed.

Lemma before_map_inv (f : A -> B) (a b : B) l :
  before a b (map f l) ->
  exists x y, f x = a /\ f y = b /\ before x y l.
Proof.
  intros (l1 & l2 & l3 & E).
  apply map_eq_app in E as (m1 & m2 & -> & <- & E).
  apply map_eq_cons in E as (x & m3 & -> & <- & E).
  apply map_eq_app in E as (m4 & m5 & -> & <- & E).
  apply map_eq_cons in E as (y & m6 & -> & <- & <-).
  exists x, y. repeat split. now exists m1, m4, m6.
Qed.

Lemma before_map (f : A -> B) (x y : A) l :
  before x y l -> before (f x) (f y) (map f l).
Proof.
  intros (l1 & l2 & l3 & ->).
  exists (map f l1), (map f l2), (map f l3).
  now rewrite !map_app, !map_cons, !map_app, !map_cons.
Qed.

Lemma before_or (a b : A) l :
  In a l -> In b l -> a = b \/ before a b l \/ before b a l.
Proof.
  induction l as [|x l IH]; simpl; [tauto|].
  intros [->|Ha] [->|Hb]; auto.
  - right. left. now apply before_head.
  - right. right. now apply before_head.
  - destruct (IH Ha Hb) as [?|[?|?]]; auto using before_cons.
Qed.

Lemma before_sorted (R : A -> A -> Prop) (a b : A) l :
  StronglySorted R l -> before a b l -> R a b.
Proof.
  induction 1 as [|x l Hs IH Hall]; intros Hb.
  - destruct Hb as (l1 & l2 & l3 & E). now destruct l1.
  - apply before_cons_inv in Hb as [[-> Hin]|Hb]; auto.
    rewrite Forall_forall in Hall. auto.
Qed.
End BeforeFacts.

(** ** Facts about the sort *)

Section SortFacts.
Variables (A K : Type) (key : A -> K) (lt : K -> K -> bool).

Local Abbreviation insert := (insert_reverse key lt).
Local Abbreviation sort := (sorted_reverse key lt).

Lemma insert_reverse_perm x l : Permutation (insert x l) (x :: l).
Proof.
  induction l as [|y l IH]; simpl; auto.
  destruct (lt (key x) (key y)); auto.
  rewrite IH. apply perm_swap.
Qed.

Lemma sorted_reverse_perm l : Permutation (sort l) l.
Proof.
  induction l as [|x l IH]; simpl; auto.
  rewrite insert_reverse_perm. now constructor.
Qed.

Lemma sorted_reverse_length l : List.length (sort l) = List.length l.
Proof. apply Permutation_length, sorted_reverse_perm. Qed.

Lemma sorted_reverse_In x l : In x (sort l) <-> In x l.
Proof.
  split; apply Permutation_in;
    [|apply Permutation_sym]; apply sorted_reverse_perm.
Qed.

(** Inserting [x] puts it behind items of a greater key only. *)
Lemma before_insert x a b l :
  before a b (insert x l) ->
  before a b l \/ (a = x /\ In b l) \/
  (b = x /\ In a l /\ lt (key x) (key a) = true).
Proof.
  induction l as [|y l IH]; simpl.
  - intros Hb. apply before_cons_inv in Hb as [[_ []]|Hb].
    destruct Hb as (l1 & l2 & l3 & E). now destruct l1.
  - destruct (lt (key x) (key y)) eqn:E; intros Hb.
    + apply before_cons_inv in Hb as [[-> Hin]|Hb].
      * apply (Permutation_in _ (insert_reverse_perm x l)) in Hin.
        destruct Hin as [->|Hin].
        -- right. right. repeat split; [now left | assumption].
        -- left. now apply before_head.
      * destruct (IH Hb) as [H|[[-> H]|(-> & H & Hlt)]].
        -- left. now apply before_cons.
        -- right. left. auto.
        -- right. right. auto.
    + apply before_cons_inv in Hb as [[-> Hin]|Hb]; auto.
Qed.

(** Stability: two items of which the later does not outrank the
    earlier are never swapped. *)
Lemma sorted_reverse_stable a b l :
  before a b (sort l) -> lt (key b) (key a) = false -> before a b l.
Proof.
  induction l as [|x l IH]; simpl; intros Hb Hlt.
  - destruct Hb as (l1 & l2 & l3 & E). now destruct l1.
  - apply before_insert in Hb as [Hb|[[-> Hin]|(-> & _ & Hlt')]].
    + apply before_cons. auto.
    + apply before_head. now apply sorted_reverse_In.
    + congruence.
Qed.

Variable good : K -> Prop.
Hypothesis Hlt : strict_weak_on good lt.

Lemma sw_asym x y : lt x y = true -> lt y x = false.
Proof.
  intros Hxy. destruct (lt y x) eqn:E; auto.
  pose proof (sw_trans Hlt _ _ _ Hxy E) as Hxx.
  rewrite (sw_irrefl Hlt) in Hxx. discriminate.
Qed.

Lemma sw_ge_trans x y z :
  good y -> lt x y = false -> lt y z = false -> lt x z = false.
Proof.
  intros Hy Hxy Hyz. destruct (lt x z) eqn:E; auto.
  destruct (sw_cotrans Hlt x y z Hy E); congruence.
Qed.

Lemma insert_reverse_sorted x l :
  Forall (fun a => good (key a)) l ->
  StronglySorted (fun a b => lt (key a) (key b) = false) l ->
  StronglySorted (fun a b => lt (key a) (key b) = false) (insert x l).
Proof.
  intros Hgood. induction 1 as [|y l Hs IH Hall]; simpl.
  - repeat constructor.
  - inversion Hgood as [|? ? Hy Hgood']; subst.
    destruct (lt (key x) (key y)) eqn:E.
    + constructor; auto.
      rewrite Forall_forall in *. intros z Hz.
      apply (Permutation_in _ (insert_reverse_perm x l)) in Hz.
      destruct Hz as [<-|Hz]; auto. now apply sw_asym.
    + constructor; [now constructor|].
      constructor; auto.
      rewrite Forall_forall in *. intros z Hz.
      apply sw_ge_trans with (key y); auto.
Qed.

(** The result is in non-increasing key order when the keys are good. *)
Lemma sorted_reverse_sorted l :
  Forall (fun a => good (key a)) l ->
  StronglySorted (fun a b => lt (key a) (key b) = false) (sort l).
Proof.
  induction l as [|x l IH]; simpl; intros Hgood; [constructor|].
  inversion Hgood as [|? ? Hx Hgood']; subst.
  apply insert_reverse_sorted; auto.
  apply Forall_forall. intros z Hz.
  rewrite Forall_forall in Hgood'. apply Hgood'.
  exact (proj1 (sorted_reverse_In z l) Hz).
Qed.

(** An item of a greater key comes first. *)
Lemma sorted_reverse_greater_first a b l :
  Forall (fun a => good (key a)) l ->
  In a (sort l) -> In b (sort l) -> lt (key b) (key a) = true ->
  before a b (sort l).
Proof.
  intros Hgood Ha Hb Hba.
  destruct (before_or _ _ _ Ha Hb) as [->|[H|H]]; auto.
  - rewrite (sw_irrefl Hlt) in Hba. discriminate.
  - apply (before_sorted (sorted_reverse_sorted Hgood)) in H. congruence.
Qed.
End SortFacts.

Lemma before_asym (A : Type) (a b : A) l :
  NoDup l -> before a b l -> before b a l -> False.
Proof.
  induction l as [|x l IH]; intros Hnd Hab Hba.
  - destruct Hab as (l1 & l2 & l3 & E). now destruct l1.
  - inversion Hnd as [|? ? Hx Hnd']; subst.
    apply before_cons_inv in Hab as [[-> Hb]|Hab];
      apply before_cons_inv in Hba as [[E Ha]|Hba].
    + subst. contradiction.
    + apply before_In in Hba as [_ Ha]. contradiction.
    + subst. apply before_In in Hab as [_ Hb]. contradiction.
    + now apply IH.
Qed.

(** Two arrangements of the same distinct items that agree on which item
    comes before which are the same list. *)
Lemma before_ext (A : Type) (s1 s2 : list A) :
  NoDup s1 -> Permutation s1 s2 ->
  (forall a b, before a b s1 -> before a b s2) ->
  s1 = s2.
Proof.
  revert s2. induction s1 as [|x s1 IH]; intros s2 Hnd Hp Hb.
  - apply Permutation_nil in Hp. now subst.
  - inversion Hnd as [|? ? Hx Hnd1]; subst.
    assert (Hnd2 : NoDup s2) by (eapply Permutation_NoDup; eauto).
    destruct s2 as [|y s2].
    + apply Permutation_sym, Permutation_nil in Hp. discriminate.
    + assert (Hxy : x = y).
      { assert (Hin : In x (y :: s2)) by (apply (Permutation_in _ Hp); now left).
        destruct Hin as [->|Hin]; auto. exfalso.
        assert (Hy : In y (x :: s1))
          by (apply (Permutation_in _ (Permutation_sym Hp)); now left).
        destruct Hy as [->|Hy].
        - inversion Hnd2; contradiction.
        - apply (@before_asym _ x y (y :: s2)); auto.
          + apply Hb. now apply before_head.
          + now apply before_head. }
      subst y. f_equal. apply Permutation_cons_inv in Hp.
      apply IH; auto. intros a b Hab.
      pose proof (before_In Hab) as [Ha _].
      apply (before_cons x), Hb, before_cons_inv in Hab.
      destruct Hab as [[-> _]|Hab]; [contradiction|assumption].
Qed.

(** Any stable sort into non-increasing key order agrees with
    [sorted_reverse] on a list of distinct items with good keys. *)
Lemma sorted_reverse_unique (A K : Type) (key : A -> K) (good : K -> Prop)
      (lt : K -> K -> bool) (l s : list A) :
  strict_weak_on good lt ->
  Forall (fun a => good (key a)) l ->
  NoDup l ->
  Permutation s l ->
  StronglySorted (fun a b => lt (key a) (key b) = false) s ->
  (forall a b, before a b s -> lt (key b) (key a) = false -> before a b l) ->
  s = sorted_reverse key lt l.
Proof.
  intros Hlt Hgood Hnd Hp Hs Hst.
  assert (Hnds : NoDup s)
    by (eapply Permutation_NoDup; [apply Permutation_sym|]; eauto).
  apply before_ext; auto.
  - rewrite Hp. apply Permutation_sym, sorted_reverse_perm.
  - intros a b Hab. destruct (before_In Hab) as [Ha Hb].
    apply (Permutation_in _ Hp), (sorted_reverse_In key lt) in Ha.
    apply (Permutation_in _ Hp), (sorted_reverse_In key lt) in Hb.
    destruct (before_or _ _ _ Ha Hb) as [->|[H|H]]; auto.
    + exfalso. eapply before_asym; eauto.
    + exfalso.
      pose proof (before_sorted Hs Hab) as H1.
      pose proof (before_sorted (sorted_reverse_sorted key Hlt Hgood) H) as H2.
      apply (@before_asym _ a b l); auto.
      now apply sorted_reverse_stable in H.
Qed.

(** Cutting a list of distinct items after an item keeps what stands
    before it. *)
Lemma before_firstn_In (A : Type) (a b : A) k l :
  NoDup l -> before a b l -> In b (firstn k l) -> before a b (firstn k l).
Proof.
  revert k. induction l as [|x l IH]; intros k Hnd Hab Hin.
  - destruct Hab as (l1 & l2 & l3 & E). now destruct l1.
  - destruct k as [|k]; [destruct Hin|]. simpl in *.
    inversion Hnd as [|? ? Hx Hnd']; subst.
    apply before_cons_inv in Hab as [[-> Hb]|Hab].
    + destruct Hin as [->|Hin]; [contradiction|]. now apply before_head.
    + destruct Hin as [->|Hin].
      * apply before_In in Hab as [_ Hb]. contradiction.
      * apply before_cons. auto.
Qed.

Lemma slice_to_map (A B : Type) (f : A -> B) (l : list A) n :
  Py.slice_to (map f l) n = map f (Py.slice_to l n).
Proof.
  unfold Py.slice_to. rewrite length_map.
  destruct (0 <=? n)%Z; now rewrite firstn_map.
Qed.

Lemma before_slice_to (A : Type) (a b : A) l n :
  before a b (Py.slice_to l n) -> before a b l.
Proof.
  unfold Py.slice_to. destruct (0 <=? n)%Z; apply before_firstn.
Qed.

Lemma slice_to_length (A : Type) (l : list A) n :
  (0 <= n)%Z ->
  List.length (Py.slice_to l n) = Nat.min (Z.to_nat n) (List.length l).
Proof.
  intros Hn. unfold Py.slice_to.
  destruct (Z.leb_spec 0 n); [|lia]. apply length_firstn.
Qed.

(** A loop that assigns [g v] to each key of a dict, in order. *)
Lemma fold_set_fresh (V W : Type) (g : V -> W) (d : Py.dict V) (acc : Py.dict W) :
  NoDup (Py.keys acc ++ Py.keys d) ->
  fold_left (fun s '(k, v) => Py.set s k (g v)) d acc
  = acc ++ map (fun '(k, v) => (k, g v)) d.
Proof.
  revert acc. induction d as [|[k v] d IH]; intros acc Hnd; simpl.
  - now rewrite app_nil_r.
  - simpl in Hnd. rewrite set_fresh.
    + rewrite IH.
      * now rewrite <- app_assoc.
      * unfold Py.keys in *. rewrite map_app, <- app_assoc. exact Hnd.
    + apply NoDup_remove_2 in Hnd. intros Hin. apply Hnd.
      apply in_or_app. now left.
Qed.

Lemma for_each_set (V W : Type) (g : V -> result W) (h : V -> W)
      (d : Py.dict V) (acc r : Py.dict W) :
  (forall v w, g v = Ok w -> w = h v) ->
  NoDup (Py.keys acc ++ Py.keys d) ->
  for_each (fun s '(k, v) => x <- g v ;; Ok (Py.set s k x)) d acc = Ok r ->
  r = acc ++ map (fun '(k, v) => (k, h v)) d.
Proof.
  intros Hg. revert acc. induction d as [|[k v] d IH]; intros acc Hnd; simpl.
  - intros [= <-]. now rewrite app_nil_r.
  - destruct (g v) as [w|e] eqn:E; simpl; [|discriminate].
    apply Hg in E. subst w. simpl in Hnd. rewrite set_fresh.
    + intros Hr. apply IH in Hr.
      * now rewrite <- app_assoc in Hr.
      * unfold Py.keys in *. rewrite map_app, <- app_assoc. exact Hnd.
    + apply NoDup_remove_2 in Hnd. intros Hin. apply Hnd.
      apply in_or_app. now left.
Qed.

Lemma for_each_set_total (V W : Type) (g : V -> result W)
      (d : Py.dict V) (acc : Py.dict W) :
  (forall k v, In (k, v) d -> exists w, g v = Ok w) ->
  exists r, for_each (fun s '(k, v) => x <- g v ;; Ok (Py.set s k x)) d acc = Ok r.
Proof.
  revert acc. induction d as [|[k v] d IH]; intros acc Hg; simpl.
  - now exists acc.
  - destruct (Hg k v) as [w Hw]; [now left|]. rewrite Hw. simpl.
    apply IH. intros k' v' Hin. apply (Hg k'). now right.
Qed.

Lemma keys_map_snd (V W : Type) (g : V -> W) (d : Py.dict V) :
  Py.keys (map (fun '(k, v) => (k, g v)) d) = Py.keys d.
Proof.
  unfold Py.keys. rewrite map_map. apply map_ext. now intros [k v].
Qed.

Lemma get_map_snd (V W : Type) (g : V -> W) (d : Py.dict V) k :
  Py.get (map (fun '(k, v) => (k, g v)) d) k = option_map g (Py.get d k).
Proof.
  induction d as [|[k' v] d IH]; simpl; auto.
  now destruct (String.eqb k' k).
Qed.

(** ** The file ranker *)

Section FileFacts.
Context {F : PyFloat}.
Variables (query : list string) (idfs : Py.dict float).

Lemma file_scores_map (files : Py.dict (list string)) :
  Py.wf files ->
  file_scores query files idfs
  = map (fun '(name, words) => (name, tf_idf query words idfs)) files.
Proof.
  intros Hwf. unfold file_scores.
  now rewrite (fold_set_fresh (fun words => tf_idf query words idfs)).
Qed.

Lemma file_scores_keys (files : Py.dict (list string)) :
  Py.wf files -> Py.keys (file_scores query files idfs) = Py.keys files.
Proof.
  intros Hwf. rewrite file_scores_map by assumption. apply keys_map_snd.
Qed.

Lemma file_scores_wf (files : Py.dict (list string)) :
  Py.wf files -> Py.wf (file_scores query files idfs).
Proof.
  intros Hwf. unfold Py.wf. now rewrite file_scores_keys.
Qed.

Lemma file_scores_get (files : Py.dict (list string)) name :
  Py.wf files ->
  Py.get (file_scores query files idfs) name
  = option_map (fun words => tf_idf query words idfs) (Py.get files name).
Proof.
  intros Hwf. rewrite file_scores_map by assumption. apply get_map_snd.
Qed.

Lemma tf_idf_fold (words : list string) (q : list string) (acc : float) :
  fold_left
    (fun tf_idf_sum word =>
       if Py.mem word words
       then fadd tf_idf_sum
              (fmul (of_int (Z.of_nat (Py.count word words)))
                    (Py.get_default idfs word (of_int 0)))
       else tf_idf_sum)
    q acc
  = fold_left fadd
      (map (fun t => fmul (of_int (Z.of_nat (Py.count t words)))
                          (Py.get_default idfs t (of_int 0)))
           (filter (fun t => Py.mem t words) q))
      acc.
Proof.
  revert acc. induction q as [|t q IH]; intros acc; simpl; auto.
  destruct (Py.mem t words); simpl; apply IH.
Qed.

Lemma tf_idf_skip (words : list string) (q1 q2 : list string) t :
  ~ In t words ->
  tf_idf (q1 ++ t :: q2) words idfs = tf_idf (q1 ++ q2) words idfs.
Proof.
  intros Hnin. unfold tf_idf. rewrite !tf_idf_fold, !filter_app. simpl.
  apply mem_false in Hnin. now rewrite Hnin.
Qed.
End FileFacts.

(** ** The sentence ranker *)

Section SentenceFacts.
Context {F : PyFloat}.
Variables (query : list string) (idfs : Py.dict float).

Lemma sentence_score_nonempty words :
  words <> [] -> sentence_score query words idfs = Ok (score_pair query idfs words).
Proof.
  intros Hne. unfold sentence_score, query_term_density, int_truediv.
  destruct (Z.eqb_spec (Z.of_nat (List.length words)) 0) as [E|_]; auto.
  destruct words; [congruence|simpl in E; lia].
Qed.

Lemma sentence_score_Ok words p :
  sentence_score query words idfs = Ok p -> p = score_pair query idfs words /\ words <> [].
Proof.
  unfold sentence_score, query_term_density, int_truediv.
  destruct (Z.eqb_spec (Z.of_nat (List.length words)) 0) as [E|E]; simpl;
    [discriminate|].
  intros [= <-]. split; auto. intros ->. now apply E.
Qed.

Lemma sentence_score_empty :
  sentence_score query [] idfs = Raise ZeroDivisionError.
Proof. reflexivity. Qed.

Lemma sentence_scores_map sentences scores :
  Py.wf sentences ->
  sentence_scores query sentences idfs = Ok scores ->
  scores = map (fun '(s, words) => (s, score_pair query idfs words)) sentences.
Proof.
  intros Hwf Hs. unfold sentence_scores in Hs.
  apply (@for_each_set _ _ (fun words => sentence_score query words idfs)
                       (score_pair query idfs)) in Hs; auto.
  intros v w Hv. now apply sentence_score_Ok in Hv.
Qed.

Lemma sentence_scores_total sentences :
  (forall s words, In (s, words) sentences -> words <> []) ->
  exists scores, sentence_scores query sentences idfs = Ok scores.
Proof.
  intros Hne. unfold sentence_scores.
  apply (for_each_set_total (fun words => sentence_score query words idfs)).
  intros s words Hin. exists (score_pair query idfs words).
  apply sentence_score_nonempty. eauto.
Qed.

Lemma measure_members words words' :
  (forall t, In t words <-> In t words') ->
  matching_word_measure query words' idfs
  = matching_word_measure query words idfs.
Proof.
  intros Hiff. unfold matching_word_measure. f_equal. f_equal.
  apply filter_ext. intros t.
  destruct (Py.mem t words) eqn:E.
  - apply mem_In. apply Hiff. now apply mem_In.
  - apply mem_false. rewrite <- Hiff. now apply mem_false.
Qed.

Context {C : PyFloatCompare F}.

Lemma tuple_ltb_true a b :
  tuple_ltb a b = true <->
  fltb (fst a) (fst b) = true \/
  (feqb (fst a) (fst b) = true /\ fltb (snd a) (snd b) = true).
Proof.
  unfold tuple_ltb. destruct (feqb (fst a) (fst b)) eqn:E1.
  - pose proof (feqb_not_lt' _ _ E1) as H1.
    destruct (feqb (snd a) (snd b)) eqn:E2.
    + pose proof (feqb_not_lt' _ _ E2) as H2. split; [discriminate|].
      intros [H|[_ H]]; congruence.
    + split; auto. intros [H|[_ H]]; congruence.
  - split; auto. intros [H|[H _]]; congruence.
Qed.

Lemma tuple_ltb_strict_weak_on : strict_weak_on pair_of_numbers tuple_ltb.
Proof.
  constructor.
  - intros [m d]. destruct (tuple_ltb (m, d) (m, d)) eqn:E; auto.
    apply tuple_ltb_true in E. simpl in E.
    rewrite !fltb_irrefl in E. destruct E as [E|[_ E]]; discriminate.
  - intros [m1 d1] [m2 d2] [m3 d3]. rewrite !tuple_ltb_true. simpl.
    intros [H1|[H1 H1']] [H2|[H2 H2']].
    + left. eapply fltb_trans; eauto.
    + left. now rewrite <- (fltb_feqb_r m1 _ _ H2).
    + left. now rewrite (fltb_feqb_l _ _ m3 H1).
    + right. split; [eapply feqb_trans; eauto | eapply fltb_trans; eauto].
  - intros [m1 d1] [m2 d2] [m3 d3] [Hm2 Hd2]. rewrite !tuple_ltb_true.
    simpl in *. intros [H|[H H']].
    + destruct (fltb_cotrans m1 m2 m3 Hm2 H); auto.
    + pose proof (feqb_number _ _ H) as Hm1.
      destruct (feqb m1 m2) eqn:E.
      * destruct (fltb_cotrans d1 d2 d3 Hd2 H'); auto.
        right. right. split; auto.
        apply feqb_trans with m1; auto. now apply feqb_sym.
      * apply feqb_false_or in E as [E|E]; auto.
        right. left. now rewrite <- (fltb_feqb_r m2 _ _ H).
Qed.

Lemma tuple_ltb_equal a b :
  feqb (fst a) (fst b) = true -> feqb (snd a) (snd b) = true ->
  tuple_ltb b a = false.
Proof.
  intros H1 H2. unfold tuple_ltb.
  now rewrite (feqb_sym _ _ H1), (feqb_sym _ _ H2).
Qed.
End SentenceFacts.

Lemma get_Some_In' (V : Type) (d : Py.dict V) k v :
  Py.get d k = Some v -> In (k, v) d.
Proof.
  induction d as [|[k' v'] d IH]; simpl; [discriminate|].
  destruct (String.eqb k' k) eqn:E; auto.
  apply String.eqb_eq in E; subst k'. intros [= ->]. now left.
Qed.

Lemma In_slice_to (A : Type) (x : A) l n : In x (Py.slice_to l n) -> In x l.
Proof.
  unfold Py.slice_to. intros Hin.
  destruct (0 <=? n)%Z;
    match type of Hin with In _ (firstn ?k _) =>
      rewrite <- (firstn_skipn k l); apply in_or_app; now left
    end.
Qed.

Lemma NoDup_slice_to (A : Type) (l : list A) n : NoDup l -> NoDup (Py.slice_to l n).
Proof.
  unfold Py.slice_to. intros Hnd.
  destruct (0 <=? n)%Z;
    match goal with |- NoDup (firstn ?k _) =>
      rewrite <- (firstn_skipn k l) in Hnd; now apply NoDup_app_remove_r in Hnd
    end.
Qed.

(** ** Ranking a table of scores: sort, cut, project *)

Section RankFacts.
Variables (S : Type) (lt : S -> S -> bool) (scores : Py.dict S) (n : Z).
Hypothesis Hwf : Py.wf scores.

Local Abbreviation ranked := (Py.slice_to (sorted_reverse snd lt scores) n).

Lemma ranked_item p : In p ranked -> Py.get scores (fst p) = Some (snd p).
Proof.
  intros Hin. apply get_wf_In; auto. rewrite <- surjective_pairing.
  apply (sorted_reverse_In snd lt). eapply In_slice_to; eauto.
Qed.

Lemma rank_In_inv a :
  In a (map fst ranked) ->
  exists sa, Py.get scores a = Some sa /\ In (a, sa) ranked.
Proof.
  intros Hin. apply in_map_iff in Hin as ([a' sa] & <- & Hin).
  exists sa. split; auto. now apply ranked_item in Hin.
Qed.

Lemma rank_before_inv a b :
  before a b (map fst ranked) ->
  exists sa sb,
    Py.get scores a = Some sa /\ Py.get scores b = Some sb /\
    before (a, sa) (b, sb) ranked.
Proof.
  intros Hb. apply before_map_inv in Hb as ([a' sa] & [b' sb] & <- & <- & Hb).
  exists sa, sb. destruct (before_In Hb) as [Ha Hb'].
  apply ranked_item in Ha. apply ranked_item in Hb'. auto.
Qed.


Lemma rank_length :
  (0 <= n)%Z ->
  List.length (map fst ranked) = Nat.min (Z.to_nat n) (List.length scores).
Proof.
  intros Hn. now rewrite length_map, slice_to_length, sorted_reverse_length.
Qed.

Lemma rank_incl a : In a (map fst ranked) -> In a (Py.keys scores).
Proof.
  intros Hin. apply rank_In_inv in Hin as (sa & Hget & _).
  apply get_In_keys. congruence.
Qed.

Lemma rank_NoDup : NoDup (map fst ranked).
Proof.
  assert (Hs : NoDup (map fst (sorted_reverse snd lt scores))).
  { eapply Permutation_NoDup; [|exact Hwf].
    apply Permutation_map, Permutation_sym, sorted_reverse_perm. }
  rewrite <- slice_to_map. now apply NoDup_slice_to.
Qed.

Variable good : S -> Prop.
Hypothesis Hlt : strict_weak_on good lt.
Hypothesis Hgood : forall k s, Py.get scores k = Some s -> good s.

Lemma scores_good : Forall (fun p => good (snd p)) scores.
Proof.
  apply Forall_forall. intros [k s] Hin. simpl.
  apply (Hgood k). now apply get_wf_In.
Qed.

Lemma rank_sorted a b sa sb :
  before a b (map fst ranked) ->
  Py.get scores a = Some sa -> Py.get scores b = Some sb ->
  lt sa sb = false.
Proof.
  intros Hb Ha Hb'.
  apply rank_before_inv in Hb as (sa' & sb' & Ha' & Hb'' & Hb).
  assert (sa' = sa) by congruence. assert (sb' = sb) by congruence. subst.
  apply before_slice_to in Hb.
  apply (before_sorted (sorted_reverse_sorted snd Hlt scores_good)) in Hb.
  exact Hb.
Qed.

(** An entry that outranks a listed entry is listed, before it. *)
Lemma rank_above_listed a b sa sb :
  In b (map fst ranked) ->
  Py.get scores a = Some sa -> Py.get scores b = Some sb ->
  lt sb sa = true ->
  before a b (map fst ranked).
Proof.
  intros Hb Hga Hgb Hlt'.
  apply rank_In_inv in Hb as (sb' & Hgb' & Hb).
  assert (sb' = sb) by congruence. subst sb'.
  assert (Ha : In (a, sa) (sorted_reverse snd lt scores)).
  { apply sorted_reverse_In. now apply get_Some_In'. }
  assert (Hb' : In (b, sb) (sorted_reverse snd lt scores))
    by (eapply In_slice_to; eauto).
  pose proof (@sorted_reverse_greater_first _ _ snd lt good Hlt (a, sa) (b, sb)
                scores scores_good Ha Hb' Hlt') as Hbefore.
  assert (Hnd : NoDup (sorted_reverse snd lt scores)).
  { eapply Permutation_NoDup;
      [apply Permutation_sym, sorted_reverse_perm|].
    eapply NoDup_map_inv. exact Hwf. }
  apply (@before_map _ _ fst (a, sa) (b, sb)).
  unfold Py.slice_to in *.
  destruct (0 <=? n)%Z; now apply before_firstn_In.
Qed.
End RankFacts.

(** ** The sample table of math.log covers the sample corpora *)

Ltac small_nat f :=
  do 5 (destruct f as [|f];
        [first [lia | vm_compute; reflexivity | vm_compute; discriminate]|]);
  lia.

Lemma b64_log_defined_2 : @log_defined B64 B64SampleMath 2.
Proof. intros f Hf. small_nat f. Qed.

Lemma b64_log_defined_3 : @log_defined B64 B64SampleMath 3.
Proof. intros f Hf. small_nat f. Qed.

Lemma b64_quotients_ordered_2 : @quotients_ordered B64 2.
Proof.
  split; [vm_compute; reflexivity|]. split; [vm_compute; reflexivity|].
  split; intros f Hf; small_nat f.
Qed.

Lemma example_documents_wf : Py.wf example_documents.
Proof.
  repeat constructor; simpl; intuition discriminate.
Qed.

(** * The IDF calculator *)

(** C1 (as the code has it): on the empty documents mapping compute_idfs
    raises nothing and returns the empty table; both loops run zero times,
    so neither the division nor the logarithm is evaluated. *)
Theorem compute_idfs_empty (F : PyFloat) (M : PyMath F) :
  compute_idfs (@nil (string * list string)) = Ok [].
Proof. reflexivity. Qed.

(** C1 as stated is false: the call on the empty mapping is not an error. *)
Lemma compute_idfs_empty_not_error :
  ~ exists e : exn,
      compute_idfs (F:=B64) (M:=B64SampleMath) (@nil (string * list string))
      = Raise e.
Proof. intros [e He]. discriminate He. Qed.

(** C2: on a non-empty documents mapping, when math.log accepts the
    quotients N / f (f = 1..N, N the number of documents), compute_idfs
    returns a table whose keys are exactly the terms that occur in some
    document; the document frequency counted by the code for such a term
    [t] is the number [df t] of documents that contain it, each document
    counted once, and the table maps [t] to the logarithm of the float
    quotient N / df t. *)
Theorem compute_idfs_table (F : PyFloat) (M : PyMath F)
        (documents : Py.dict (list string)) :
  documents <> [] ->
  log_defined (List.length documents) ->
  exists idfs,
    compute_idfs documents = Ok idfs /\
    (forall t, Py.get idfs t <> None <->
               exists doc, In doc documents /\ In t (snd doc)) /\
    (forall t, (exists doc, In doc documents /\ In t (snd doc)) ->
               Py.get (doc_frequency documents) t = Some (df t documents) /\
               exists v,
                 log (truediv (Z.of_nat (List.length documents))
                              (Z.of_nat (df t documents))) = Some v /\
                 Py.get idfs t = Some v).
Proof.
  intros _ Hdef.
  destruct (compute_idfs_defined documents Hdef) as [idfs Hok].
  destruct (compute_idfs_Ok _ Hok) as (_ & _ & Hget).
  exists idfs. split; [assumption|].
  assert (Hlog : forall t c, df t documents = S c ->
            log (truediv (Z.of_nat (List.length documents)) (Z.of_nat (S c)))
            <> None).
  { intros t c E. apply Hdef. pose proof (df_le_length t documents). lia. }
  split.
  - intros t. rewrite Hget, <- df_pos.
    destruct (df t documents) as [|c] eqn:E.
    + split; [congruence|lia].
    + split; [lia|]. intros _. now apply (Hlog t).
  - intros t Ht. apply df_pos in Ht.
    rewrite Hget, doc_frequency_get.
    destruct (df t documents) as [|c] eqn:E; [lia|]. split; [reflexivity|].
    specialize (Hlog t c E).
    destruct (log (truediv (Z.of_nat (List.length documents))
                           (Z.of_nat (S c)))) as [v|]; [eauto|congruence].
Qed.

Lemma compute_idfs_table_witness :
  exists idfs,
    compute_idfs (F:=B64) (M:=B64SampleMath) example_documents = Ok idfs /\
    (forall t, Py.get idfs t <> None <->
               exists doc, In doc example_documents /\ In t (snd doc)) /\
    (forall t, (exists doc, In doc example_documents /\ In t (snd doc)) ->
               Py.get (doc_frequency example_documents) t
               = Some (df t example_documents) /\
               exists v,
                 b64_sample_log
                   (@truediv B64 (Z.of_nat (List.length example_documents))
                                 (Z.of_nat (df t example_documents))) = Some v /\
                 Py.get idfs t = Some v).
Proof.
  apply (@compute_idfs_table B64 B64SampleMath example_documents).
  - discriminate.
  - exact b64_log_defined_2.
Defined.

(** The table of the sample corpus, on binary64. *)
Example compute_idfs_sample :
  compute_idfs (F:=B64) (M:=B64SampleMath) example_documents
  = Ok [("sat", 0x1.62e42fefa39efp-1%float); ("cat", 0%float);
        ("mat", 0x1.62e42fefa39efp-1%float)]%string.
Proof. vm_compute. reflexivity. Qed.

(** C7: for a non-empty documents mapping with N documents and a term [t]
    that occurs in some document, the idf of [t] lies between 0 and
    log N, it is 0 exactly when [t] occurs in every document, and it is
    positive when [t] occurs in fewer than N documents.  This holds in
    every float arithmetic in which the quotients N / f stand to 1 and N
    as the exact ones do, for every math.log that is 0 at 1, positive
    above 1 and never decreasing. *)
Theorem idf_range (F : PyFloat) (M : PyMath F)
        (C : PyFloatCompare F) (L : PyLogLaws M)
        (documents : Py.dict (list string)) (t : string) :
  documents <> [] ->
  (exists doc, In doc documents /\ In t (snd doc)) ->
  log_defined (List.length documents) ->
  quotients_ordered (List.length documents) ->
  is_number (of_int 0) ->
  exists idfs v vN,
    compute_idfs documents = Ok idfs /\
    Py.get idfs t = Some v /\
    log (of_int (Z.of_nat (List.length documents))) = Some vN /\
    fleb (of_int 0) v = true /\
    fleb v vN = true /\
    (feqb v (of_int 0) = true <->
     forall doc, In doc documents -> In t (snd doc)) /\
    ((df t documents < List.length documents)%nat ->
     fltb (of_int 0) v = true).
Proof.
  intros Hne Ht Hdef (Hone & Hfirst & Habove & Hbelow) Hzero.
  apply df_pos in Ht.
  destruct (compute_idfs_defined documents Hdef) as [idfs Hok].
  destruct (compute_idfs_Ok _ Hok) as (_ & _ & Hget).
  specialize (Hget t). pose proof (df_le_length t documents) as Hle.
  pose proof (df_full t documents) as Hfull.
  set (N := List.length documents) in *.
  assert (HN : (1 <= N)%nat) by lia.
  destruct (df t documents) as [|c] eqn:E; [lia|].
  assert (Hf : (1 <= S c <= N)%nat) by lia.
  pose proof (Hdef (S c) Hf) as Hv.
  destruct (log (truediv (Z.of_nat N) (Z.of_nat (S c)))) as [v|] eqn:Hlog;
    [|congruence].
  assert (H1 : (1 <= 1 <= N)%nat) by lia.
  pose proof (Hdef 1%nat H1) as HvN. change (Z.of_nat 1) with 1%Z in HvN.
  rewrite Hfirst in HvN.
  destruct (log (of_int (Z.of_nat N))) as [vN|] eqn:HlogN; [|congruence].
  assert (Hpos : (S c < N)%nat -> fltb (of_int 0) v = true).
  { intros Hlt. apply (log_positive (truediv (Z.of_nat N) (Z.of_nat (S c)))).
    - apply Habove. lia.
    - exact Hlog. }
  assert (Hfullv : S c = N -> v = of_int 0).
  { intros HcN. rewrite HcN, Hone, log_one in Hlog. congruence. }
  exists idfs, v, vN. repeat split; auto.
  - destruct (Nat.eq_dec (S c) N) as [HcN|HcN].
    + rewrite (Hfullv HcN). now apply fleb_refl.
    + apply fleb_true. left. apply Hpos. lia.
  - eapply log_monotone; [|exact Hlog|exact HlogN]. now apply Hbelow.
  - intros Heq. apply Hfull.
    destruct (Nat.eq_dec (S c) N) as [HcN|HcN]; auto.
    assert (Hlt : fltb (of_int 0) v = true) by (apply Hpos; lia).
    rewrite (feqb_not_lt _ _ Heq) in Hlt. discriminate.
  - intros Hall. apply Hfull in Hall. rewrite (Hfullv Hall). exact Hzero.
Qed.

Lemma idf_range_witness :
  exists idfs v vN,
    compute_idfs (F:=B64) (M:=B64SampleMath) example_documents = Ok idfs /\
    Py.get idfs "sat"%string = Some v /\
    b64_sample_log (b64_of_int (Z.of_nat (List.length example_documents)))
    = Some vN /\
    @fleb B64 (b64_of_int 0) v = true /\
    @fleb B64 v vN = true /\
    (PrimFloat.eqb v (b64_of_int 0) = true <->
     forall doc, In doc example_documents -> In "sat"%string (snd doc)) /\
    ((df "sat"%string example_documents < List.length example_documents)%nat ->
     PrimFloat.ltb (b64_of_int 0) v = true).
Proof.
  apply (@idf_range B64 B64SampleMath B64Compare B64SampleLogLaws
           example_documents "sat"%string).
  - discriminate.
  - exists ("a.txt"%string, ["cat"; "sat"; "cat"]%string). simpl. auto.
  - exact b64_log_defined_2.
  - exact b64_quotients_ordered_2.
  - vm_compute. reflexivity.
Defined.

(** C8: adding to a non-empty documents mapping a copy of one of its
    documents under a fresh identifier raises by exactly 1 the document
    frequency of every term of that document, and the idf of each such
    term on the enlarged mapping is at most its idf on the original.  The
    second part holds for every never decreasing math.log, provided the
    float quotient (N+1) / (df+1) is at most the float quotient N / df, as
    the exact quotients are. *)
Theorem idf_duplicate (F : PyFloat) (M : PyMath F) (L : PyLogLaws M)
        (documents : Py.dict (list string))
        (name name' : string) (words : list string) (t : string) :
  documents <> [] ->
  In (name, words) documents ->
  ~ In name' (Py.keys documents) ->
  In t words ->
  log_defined (List.length documents) ->
  log_defined (List.length documents + 1) ->
  fleb (truediv (Z.of_nat (List.length documents + 1))
                (Z.of_nat (df t documents + 1)))
       (truediv (Z.of_nat (List.length documents))
                (Z.of_nat (df t documents))) = true ->
  exists m idfs idfs' v v',
    Py.get (doc_frequency documents) t = Some m /\
    Py.get (doc_frequency (Py.set documents name' words)) t = Some (m + 1)%nat /\
    compute_idfs documents = Ok idfs /\
    compute_idfs (Py.set documents name' words) = Ok idfs' /\
    Py.get idfs t = Some v /\
    Py.get idfs' t = Some v' /\
    fleb v' v = true.
Proof.
  intros _ Hin Hfresh Ht Hdef Hdef' Hq.
  rewrite (@set_fresh _ documents name' words Hfresh).
  set (documents' := documents ++ [(name', words)]).
  assert (Hdf : (0 < df t documents)%nat).
  { apply df_pos. exists (name, words). auto. }
  assert (Hdf' : df t documents' = (df t documents + 1)%nat).
  { unfold documents'. rewrite df_app, df_cons. simpl snd.
    apply mem_In in Ht. rewrite Ht. reflexivity. }
  assert (Hlen : List.length documents' = (List.length documents + 1)%nat).
  { unfold documents'. rewrite length_app. reflexivity. }
  pose proof (df_le_length t documents) as Hle.
  rewrite <- Hlen in Hdef'.
  destruct (compute_idfs_defined documents Hdef) as [idfs Hok].
  destruct (compute_idfs_defined documents' Hdef') as [idfs' Hok'].
  destruct (compute_idfs_Ok _ Hok) as (_ & _ & Hget).
  destruct (compute_idfs_Ok _ Hok') as (_ & _ & Hget').
  specialize (Hget t). specialize (Hget' t).
  assert (Hv : log (truediv (Z.of_nat (List.length documents))
                            (Z.of_nat (df t documents))) <> None)
    by (apply Hdef; lia).
  assert (Hv' : log (truediv (Z.of_nat (List.length documents'))
                             (Z.of_nat (df t documents'))) <> None)
    by (apply Hdef'; lia).
  rewrite Hdf' in Hget', Hv'. rewrite Hlen in Hget', Hv'.
  exists (df t documents), idfs, idfs'.
  rewrite !doc_frequency_get, Hdf'.
  destruct (df t documents) as [|c] eqn:E; [lia|].
  replace (S c + 1)%nat with (S (S c)) in * by lia.
  destruct (log (truediv (Z.of_nat (List.length documents))
                         (Z.of_nat (S c)))) as [v|] eqn:Hlog; [|congruence].
  destruct (log (truediv (Z.of_nat (List.length documents + 1))
                         (Z.of_nat (S (S c))))) as [v'|] eqn:Hlog';
    [|congruence].
  exists v, v'. repeat split; auto.
  eapply log_monotone; [exact Hq|exact Hlog'|exact Hlog].
Qed.

Lemma idf_duplicate_witness :
  exists m idfs idfs' v v',
    Py.get (doc_frequency example_documents) "mat"%string = Some m /\
    Py.get (doc_frequency (Py.set example_documents "c.txt"%string
                             ["cat"; "mat"]%string)) "mat"%string
    = Some (m + 1)%nat /\
    compute_idfs (F:=B64) (M:=B64SampleMath) example_documents = Ok idfs /\
    compute_idfs (F:=B64) (M:=B64SampleMath)
      (Py.set example_documents "c.txt"%string ["cat"; "mat"]%string)
    = Ok idfs' /\
    Py.get idfs "mat"%string = Some v /\
    Py.get idfs' "mat"%string = Some v' /\
    @fleb B64 v' v = true.
Proof.
  apply (@idf_duplicate B64 B64SampleMath B64SampleLogLaws example_documents
           "b.txt"%string "c.txt"%string ["cat"; "mat"]%string "mat"%string).
  - discriminate.
  - simpl. auto.
  - simpl. intros [H|[H|[]]]; discriminate H.
  - simpl. auto.
  - exact b64_log_defined_2.
  - exact b64_log_defined_3.
  - vm_compute. reflexivity.
Defined.

(** The idf of "mat" falls from log 2 to log 1.5 when b.txt is copied. *)
Example idf_duplicate_sample :
  compute_idfs (F:=B64) (M:=B64SampleMath)
    (Py.set example_documents "c.txt"%string ["cat"; "mat"]%string)
  = Ok [("sat", 0x1.193ea7aad030bp+0%float); ("cat", 0%float);
        ("mat", 0x1.9f323ecbf984cp-2%float)]%string.
Proof. vm_compute. reflexivity. Qed.

(** * The file ranker *)

Lemma get_forallb (V : Type) (p : V -> bool) (d : Py.dict V) :
  forallb (fun kv => p (snd kv)) d = true ->
  forall k v, Py.get d k = Some v -> p v = true.
Proof.
  intros Hall k v Hget. apply get_Some_In' in Hget.
  rewrite forallb_forall in Hall. exact (Hall (k, v) Hget).
Qed.

Lemma b64_files_wf : Py.wf b64_files.
Proof.
  repeat constructor; simpl; intuition discriminate.
Qed.

Lemma b64_files_scores_numbers :
  forall name s,
    Py.get (file_scores (F:=B64) ["x"; "y"]%string b64_files b64_idfs) name
    = Some s ->
    is_number s.
Proof.
  apply (get_forallb (fun s => @feqb B64 s s)). vm_compute. reflexivity.
Qed.

(** C3: the score top_files gives a file is the sum, over the query terms
    that occur in the file, of the term's raw count in the file times its
    idf, the idf being 0 for a term the idfs table lacks; a query term that
    does not occur in the file adds nothing, so leaving it out of the query
    leaves the score as it is.  Nothing in the computation can raise. *)
Theorem file_score_formula (F : PyFloat) (query : list string)
        (files : Py.dict (list string)) (idfs : Py.dict float)
        (name : string) (words : list string) :
  Py.wf files ->
  Py.get files name = Some words ->
  Py.get (file_scores query files idfs) name
  = Some (fsum (map (fun t =>
                       fmul (of_int (Z.of_nat (Py.count t words)))
                            match Py.get idfs t with
                            | Some idf => idf
                            | None => of_int 0
                            end)
                    (filter (fun t => Py.mem t words) query))) /\
  (forall q1 q2 t,
      query = q1 ++ t :: q2 -> ~ In t words ->
      Py.get (file_scores query files idfs) name
      = Py.get (file_scores (q1 ++ q2) files idfs) name).
Proof.
  intros Hwf Hget. split.
  - rewrite file_scores_get, Hget by assumption. simpl.
    unfold tf_idf. now rewrite tf_idf_fold.
  - intros q1 q2 t -> Hnin. rewrite !file_scores_get, Hget by assumption.
    simpl. now rewrite tf_idf_skip.
Qed.

Lemma file_score_formula_witness :
  Py.get (file_scores (F:=B64) example_query example_documents example_idfs)
         "b.txt"%string
  = Some (fsum (F:=B64)
               (map (fun t =>
                       @fmul B64
                            (of_int (Z.of_nat (Py.count t ["cat"; "mat"]%string)))
                            match Py.get example_idfs t with
                            | Some idf => idf
                            | None => @of_int B64 0
                            end)
                    (filter (fun t => Py.mem t ["cat"; "mat"]%string)
                            example_query))) /\
  (forall q1 q2 t,
      example_query = q1 ++ t :: q2 -> ~ In t ["cat"; "mat"]%string ->
      Py.get (file_scores (F:=B64) example_query example_documents example_idfs)
             "b.txt"%string
      = Py.get (file_scores (F:=B64) (q1 ++ q2) example_documents example_idfs)
               "b.txt"%string).
Proof.
  apply file_score_formula; [exact example_documents_wf | reflexivity].
Defined.

(** C4: for a non-negative [n], top_files returns exactly min(n, number of
    files) identifiers, all of them distinct identifiers of files, and
    in non-increasing order of score: a file listed before another never
    has the smaller score.  The order needs the scores to be numbers;
    a NaN among them, which compares false with everything, breaks it. *)
Theorem top_files_length_order (F : PyFloat) (C : PyFloatCompare F)
        (query : list string) (files : Py.dict (list string))
        (idfs : Py.dict float) (n : Z) :
  Py.wf files ->
  (0 <= n)%Z ->
  (forall name s,
      Py.get (file_scores query files idfs) name = Some s -> is_number s) ->
  List.length (top_files query files idfs n)
  = Nat.min (Z.to_nat n) (List.length files) /\
  NoDup (top_files query files idfs n) /\
  incl (top_files query files idfs n) (Py.keys files) /\
  (forall a b,
      before a b (top_files query files idfs n) ->
      exists sa sb,
        Py.get (file_scores query files idfs) a = Some sa /\
        Py.get (file_scores query files idfs) b = Some sb /\
        fltb sa sb = false).
Proof.
  intros Hwf Hn Hnum. pose proof (file_scores_wf query idfs Hwf) as Hwf'.
  unfold top_files. repeat split.
  - rewrite rank_length by assumption.
    now rewrite file_scores_map, length_map.
  - now apply rank_NoDup.
  - intros a Ha. rewrite <- (file_scores_keys query idfs Hwf).
    now apply rank_incl in Ha.
  - intros a b Hb.
    pose proof Hb as Hb0.
    apply rank_before_inv in Hb0 as (sa & sb & Ha & Hb' & _); [|assumption].
    exists sa, sb. repeat split; auto.
    eapply (@rank_sorted _ fltb _ n Hwf' is_number); eauto.
    apply fltb_strict_weak_on.
Qed.

Lemma top_files_length_order_witness :
  top_files (F:=B64) ["x"; "y"]%string b64_files b64_idfs 2
  = ["a.txt"; "b.txt"]%string /\
  List.length (top_files (F:=B64) ["x"; "y"]%string b64_files b64_idfs 2)
  = Nat.min (Z.to_nat 2) (List.length b64_files) /\
  NoDup (top_files (F:=B64) ["x"; "y"]%string b64_files b64_idfs 2) /\
  incl (top_files (F:=B64) ["x"; "y"]%string b64_files b64_idfs 2)
       (Py.keys b64_files) /\
  (forall a b,
      before a b (top_files (F:=B64) ["x"; "y"]%string b64_files b64_idfs 2) ->
      exists sa sb,
        Py.get (file_scores ["x"; "y"]%string b64_files b64_idfs) a = Some sa /\
        Py.get (file_scores ["x"; "y"]%string b64_files b64_idfs) b = Some sb /\
        PrimFloat.ltb sa sb = false).
Proof.
  split; [vm_compute; reflexivity|].
  apply (@top_files_length_order B64 B64Compare).
  - exact b64_files_wf.
  - lia.
  - exact b64_files_scores_numbers.
Defined.

(** * The sentence ranker *)

Lemma example_sentences_wf : Py.wf example_sentences.
Proof.
  repeat constructor; simpl; intuition discriminate.
Qed.

Lemma example_sentences_nonempty :
  forall s words, In (s, words) example_sentences -> words <> [].
Proof.
  intros s words [H|[H|[]]]; injection H as _ <-; discriminate.
Qed.

Lemma tie_sentences_wf : Py.wf tie_sentences.
Proof.
  repeat constructor; simpl; intuition discriminate.
Qed.

Lemma tie_sentences_nonempty :
  forall s words, In (s, words) tie_sentences -> words <> [].
Proof.
  intros s words [H|[H|[H|[]]]]; injection H as _ <-; discriminate.
Qed.



Lemma sentence_scores_wf (F : PyFloat) query sentences (idfs : Py.dict float) scores :
  Py.wf sentences ->
  sentence_scores query sentences idfs = Ok scores ->
  Py.wf scores /\ Py.keys scores = Py.keys sentences.
Proof.
  intros Hwf Hs. apply sentence_scores_map in Hs; auto. subst scores.
  unfold Py.wf. now rewrite keys_map_snd.
Qed.

Lemma sentence_scores_get (F : PyFloat) query sentences (idfs : Py.dict float)
      scores s p :
  Py.wf sentences ->
  sentence_scores query sentences idfs = Ok scores ->
  Py.get scores s = Some p ->
  exists words, In (s, words) sentences /\ p = score_pair query idfs words.
Proof.
  intros Hwf Hs Hget. apply sentence_scores_map in Hs; auto. subst scores.
  rewrite get_map_snd in Hget.
  destruct (Py.get sentences s) as [words|] eqn:E; [|discriminate].
  injection Hget as <-. exists words. split; auto. now apply get_Some_In'.
Qed.

(** C5: a sentence with a non-empty token sequence is scored with the pair
    (matching word measure, query term density): the measure is the sum of
    the idf (0 when the idfs table lacks the term) of the query terms that
    occur in the sentence, each term once however often the sentence
    repeats it, so that the measure depends on the sentence only through
    the set of its tokens; the density is the number of the sentence's
    tokens that are query terms divided by the number of its tokens.  The
    scoring loop returns when every sentence is non-empty. *)
Theorem sentence_score_formula (F : PyFloat) (query : list string)
        (sentences : Py.dict (list string)) (idfs : Py.dict float)
        (s : string) (words : list string) :
  Py.wf sentences ->
  Py.get sentences s = Some words ->
  words <> [] ->
  let m := fsum (map (fun t => match Py.get idfs t with
                               | Some idf => idf
                               | None => of_int 0
                               end)
                     (filter (fun t => Py.mem t words) query)) in
  let d := truediv
             (Z.of_nat (List.length (filter (fun w => Py.mem w query) words)))
             (Z.of_nat (List.length words)) in
  sentence_score query words idfs = Ok (m, d) /\
  (forall scores,
      sentence_scores query sentences idfs = Ok scores ->
      Py.get scores s = Some (m, d)) /\
  ((forall s' words', In (s', words') sentences -> words' <> []) ->
   exists scores, sentence_scores query sentences idfs = Ok scores) /\
  (forall words',
      (forall t, In t words <-> In t words') ->
      matching_word_measure query words' idfs = m).
Proof.
  intros Hwf Hget Hne m d. split; [|split; [|split]].
  - now apply sentence_score_nonempty.
  - intros scores Hs. apply sentence_scores_map in Hs; auto. subst scores.
    rewrite get_map_snd, Hget. reflexivity.
  - apply sentence_scores_total.
  - intros words' Hiff. now apply measure_members.
Qed.

Lemma sentence_score_formula_witness :
  exists m d,
    sentence_score (F:=B64) example_query ["cat"; "sat"]%string example_idfs
    = Ok (m, d) /\
    forall scores,
      sentence_scores (F:=B64) example_query example_sentences example_idfs
      = Ok scores ->
      Py.get scores "The cat sat."%string = Some (m, d).
Proof.
  destruct (@sentence_score_formula B64 example_query example_sentences
              example_idfs "The cat sat."%string ["cat"; "sat"]%string
              example_sentences_wf eq_refl ltac:(discriminate))
    as (H1 & H2 & _).
  eexists. eexists. split; [exact H1 | exact H2].
Defined.

(** C6: top_sentences returns min(n, number of sentences) of the
    sentences, and a sentence that outranks a returned sentence is
    returned too, before it: so is a sentence with a strictly higher
    matching word measure, and so is one with an equal measure and a
    strictly higher query term density.  The sentences scored are
    non-empty and their scores are numbers. *)
Theorem top_sentences_order (F : PyFloat) (C : PyFloatCompare F)
        (query : list string) (sentences : Py.dict (list string))
        (idfs : Py.dict float) (n : Z) :
  Py.wf sentences ->
  (forall s words, In (s, words) sentences -> words <> []) ->
  (forall s words, In (s, words) sentences ->
                   pair_of_numbers (score_pair query idfs words)) ->
  (0 <= n)%Z ->
  exists scores out,
    sentence_scores query sentences idfs = Ok scores /\
    top_sentences query sentences idfs n = Ok out /\
    List.length out = Nat.min (Z.to_nat n) (List.length sentences) /\
    incl out (Py.keys sentences) /\
    forall a b ma da mb db,
      Py.get scores a = Some (ma, da) ->
      Py.get scores b = Some (mb, db) ->
      In b out ->
      (fltb mb ma = true -> before a b out) /\
      (feqb ma mb = true -> fltb db da = true -> before a b out).
Proof.
  intros Hwf Hne Hnum Hn.
  destruct (sentence_scores_total query idfs sentences Hne) as [scores Hs].
  destruct (sentence_scores_wf _ _ _ Hwf Hs) as [Hwf' Hkeys].
  exists scores. eexists. split; [exact Hs|]. split; [|split; [|split]].
  - unfold top_sentences. rewrite Hs. reflexivity.
  - rewrite rank_length by assumption.
    apply sentence_scores_map in Hs; auto. subst scores.
    now rewrite length_map.
  - intros a Ha. rewrite <- Hkeys. now apply rank_incl in Ha.
  - intros a b ma da mb db Hga Hgb Hb.
    assert (Hgood : forall k p, Py.get scores k = Some p -> pair_of_numbers p).
    { intros k p Hk.
      destruct (@sentence_scores_get F query sentences idfs scores k p Hwf Hs Hk)
        as (words & Hin & ->).
      eauto. }
    assert (Hlt : tuple_ltb (mb, db) (ma, da) = true ->
                  before a b (map fst (Py.slice_to
                                         (sorted_reverse snd tuple_ltb scores) n))).
    { intros Hlt.
      eapply (@rank_above_listed _ tuple_ltb scores n Hwf' pair_of_numbers);
        eauto.
      apply tuple_ltb_strict_weak_on. }
    split.
    + intros H. apply Hlt. apply tuple_ltb_true. now left.
    + intros H1 H2. apply Hlt. apply tuple_ltb_true. right.
      split; auto. now apply feqb_sym.
Qed.

Lemma top_sentences_order_witness :
  exists scores out,
    sentence_scores (F:=B64) ["cat"]%string tie_sentences b64_cat_idfs
    = Ok scores /\
    top_sentences (F:=B64) ["cat"]%string tie_sentences b64_cat_idfs 2
    = Ok out /\
    List.length out = Nat.min (Z.to_nat 2) (List.length tie_sentences) /\
    incl out (Py.keys tie_sentences) /\
    forall a b ma da mb db,
      Py.get scores a = Some (ma, da) ->
      Py.get scores b = Some (mb, db) ->
      In b out ->
      (PrimFloat.ltb mb ma = true -> before a b out) /\
      (PrimFloat.eqb ma mb = true -> PrimFloat.ltb db da = true ->
       before a b out).
Proof.
  apply (@top_sentences_order B64 B64Compare).
  - exact tie_sentences_wf.
  - exact tie_sentences_nonempty.
  - intros s words [H|[H|[H|[]]]]; injection H as _ <-;
      split; vm_compute; reflexivity.
  - lia.
Defined.

(** Of three sentences the two that hold the query term are returned, not
    the one the mapping lists first; they have the measure 0.1, and the
    one of density 1 comes before the one of density 1/2, against the
    order of the mapping. *)
Example top_sentences_tie_break :
  sentence_scores (F:=B64) ["cat"]%string tie_sentences b64_cat_idfs
  = Ok [("A dog.", (0, 0)%float);
        ("The cat sat.", (0x1.999999999999ap-4, 0.5)%float);
        ("A cat.", (0x1.999999999999ap-4, 1)%float)]%string /\
  top_sentences (F:=B64) ["cat"]%string tie_sentences b64_cat_idfs 1
  = Ok ["A cat."]%string /\
  top_sentences (F:=B64) ["cat"]%string tie_sentences b64_cat_idfs 2
  = Ok ["A cat."; "The cat sat."]%string.
Proof. repeat split; vm_compute; reflexivity. Qed.

(** * Ties *)



(** * Scaling the term counts of a file *)

Ltac count_cases :=
  let t := fresh "t" in
  intros t; cbn [Py.count snd repeat];
  repeat match goal with
         | |- context [String.eqb ?a t] => destruct (String.eqb a t)
         end;
  reflexivity.

Lemma mem_count t l : Py.mem t l = (0 <? Py.count t l)%nat.
Proof.
  destruct (Py.mem t l) eqn:E; symmetry.
  - apply Nat.ltb_lt, count_pos, mem_In, E.
  - apply Nat.ltb_ge. apply mem_false in E. rewrite <- count_pos in E. lia.
Qed.

Lemma mem_scaled (k : nat) words words' t :
  (0 < k)%nat ->
  (forall t, Py.count t words' = (k * Py.count t words)%nat) ->
  Py.mem t words' = Py.mem t words.
Proof.
  intros Hk Hc. rewrite !mem_count, Hc.
  destruct (Nat.ltb_spec 0 (Py.count t words)) as [H|H].
  - apply Nat.ltb_lt. nia.
  - apply Nat.ltb_ge. nia.
Qed.

Lemma insert_reverse_map (A A' K K' : Type) (key : A -> K) (key' : A' -> K')
      (lt : K -> K -> bool) (lt' : K' -> K' -> bool) (g : A -> A')
      (x : A) (s : list A) :
  (forall y, In y s -> lt' (key' (g x)) (key' (g y)) = lt (key x) (key y)) ->
  insert_reverse key' lt' (g x) (map g s) = map g (insert_reverse key lt x s).
Proof.
  induction s as [|y s IH]; intros Hg; simpl; auto.
  rewrite Hg by now left.
  destruct (lt (key x) (key y)); simpl; auto.
  rewrite IH; auto. intros z Hz. apply Hg. now right.
Qed.

(** Sorting commutes with a change of the items that keeps the order of
    the keys among the items of the list. *)
Lemma sorted_reverse_map_In (A A' K K' : Type) (key : A -> K) (key' : A' -> K')
      (lt : K -> K -> bool) (lt' : K' -> K' -> bool) (g : A -> A') (l : list A) :
  (forall x y, In x l -> In y l ->
               lt' (key' (g x)) (key' (g y)) = lt (key x) (key y)) ->
  sorted_reverse key' lt' (map g l) = map g (sorted_reverse key lt l).
Proof.
  induction l as [|x l IH]; intros Hg; simpl; auto.
  rewrite IH by (intros; apply Hg; now right).
  apply insert_reverse_map. intros y Hy. apply Hg; [now left|].
  right. exact (proj1 (sorted_reverse_In key lt y l) Hy).
Qed.

Section ScalingFacts.
Context {F : PyFloat}.
Variables (k : nat) (query : list string) (idfs : Py.dict float).
Hypothesis Hk : (0 < k)%nat.

Lemma tf_idf_scaled_acc (words words' : list string) (q : list string)
      (acc : float) :
  (forall t, Py.count t words' = (k * Py.count t words)%nat) ->
  scales_exactly k words idfs q acc ->
  fold_left
    (fun tf_idf_sum word =>
       if Py.mem word words'
       then fadd tf_idf_sum
              (fmul (of_int (Z.of_nat (Py.count word words')))
                    (Py.get_default idfs word (of_int 0)))
       else tf_idf_sum)
    q (fmul (of_int (Z.of_nat k)) acc)
  = fmul (of_int (Z.of_nat k))
      (fold_left
         (fun tf_idf_sum word =>
            if Py.mem word words
            then fadd tf_idf_sum
                   (fmul (of_int (Z.of_nat (Py.count word words)))
                         (Py.get_default idfs word (of_int 0)))
            else tf_idf_sum)
         q acc).
Proof.
  intros Hc. revert acc. induction q as [|t q IH]; intros acc; simpl; auto.
  rewrite (@mem_scaled k words words' t Hk Hc).
  destruct (Py.mem t words); [|apply IH].
  intros (Hmul & Hadd & Hrest).
  rewrite <- IH by assumption. f_equal.
  rewrite Hc, Hmul. exact Hadd.
Qed.

Lemma tf_idf_scaled (words words' : list string) :
  (forall t, Py.count t words' = (k * Py.count t words)%nat) ->
  fmul (of_int (Z.of_nat k)) (of_int 0) = of_int 0 ->
  scales_exactly k words idfs query (of_int 0) ->
  tf_idf query words' idfs
  = fmul (of_int (Z.of_nat k)) (tf_idf query words idfs).
Proof.
  intros Hc H0 Hex. unfold tf_idf.
  rewrite <- (tf_idf_scaled_acc words words' query (of_int 0) Hc Hex).
  now rewrite H0.
Qed.

Lemma file_scores_scaled (files files' : Py.dict (list string)) :
  Py.wf files ->
  Forall2 (scaled k) files files' ->
  fmul (of_int (Z.of_nat k)) (of_int 0) = of_int 0 ->
  (forall name words, In (name, words) files ->
                      scales_exactly k words idfs query (of_int 0)) ->
  Py.wf files' /\
  file_scores query files' idfs
  = map (fun p => (fst p, fmul (of_int (Z.of_nat k)) (snd p)))
        (file_scores query files idfs).
Proof.
  intros Hwf Hall H0 Hex.
  assert (Hkeys : Py.keys files' = Py.keys files).
  { clear Hwf Hex. induction Hall as [|f f' l l' [Hf _] _ IH]; simpl; congruence. }
  assert (Hwf' : Py.wf files') by (unfold Py.wf; now rewrite Hkeys).
  split; auto. rewrite !file_scores_map by assumption. clear Hwf Hwf' Hkeys.
  induction Hall as [|[name words] [name' words'] l l' [Hf Hc] _ IH];
    cbn [map fst snd]; auto.
  cbn [fst snd] in Hf, Hc. subst name'.
  rewrite IH by (intros; eapply Hex; right; eauto).
  f_equal. f_equal. apply tf_idf_scaled; auto.
  apply (Hex name). now left.
Qed.

End ScalingFacts.

Lemma get_map_scaled (V : Type) (g : V -> V) (d : Py.dict V) k :
  Py.get (map (fun p => (fst p, g (snd p))) d) k = option_map g (Py.get d k).
Proof.
  induction d as [|[k' v] d IH]; simpl; auto.
  now destruct (String.eqb k' k).
Qed.

(** C9 (amended): when every term count of a file is multiplied by a
    positive integer [k], the file's score is multiplied by exactly [k]
    provided the multiplication by [k] commutes with every rounding in the
    score ([scales_exactly]); when this is so for every file, and the
    multiplication by [k] keeps the order of the scores, top_files returns
    the same ranking. *)
Theorem scaling_exact (F : PyFloat) (k : nat) (query : list string)
        (idfs : Py.dict float)
        (files files' : Py.dict (list string)) (n : Z) :
  (0 < k)%nat ->
  Py.wf files ->
  Forall2 (scaled k) files files' ->
  fmul (of_int (Z.of_nat k)) (of_int 0) = of_int 0 ->
  (forall name words, In (name, words) files ->
                      scales_exactly k words idfs query (of_int 0)) ->
  (forall x y,
      In x (Py.values (file_scores query files idfs)) ->
      In y (Py.values (file_scores query files idfs)) ->
      fltb (fmul (of_int (Z.of_nat k)) x) (fmul (of_int (Z.of_nat k)) y)
      = fltb x y) ->
  (forall name s,
      Py.get (file_scores query files idfs) name = Some s ->
      Py.get (file_scores query files' idfs) name
      = Some (fmul (of_int (Z.of_nat k)) s)) /\
  top_files query files' idfs n = top_files query files idfs n.
Proof.
  intros Hk Hwf Hall H0 Hex Hord.
  destruct (file_scores_scaled query idfs Hk Hwf Hall H0 Hex) as [Hwf' Hmap].
  split.
  - intros name s Hs. rewrite Hmap, get_map_scaled, Hs. reflexivity.
  - unfold top_files. rewrite Hmap.
    rewrite (@sorted_reverse_map_In _ _ _ _ snd snd fltb fltb).
    + rewrite slice_to_map, map_map. reflexivity.
    + intros x y Hx Hy. simpl snd.
      apply Hord; unfold Py.values; now apply in_map.
Qed.

(** The sample files with every count doubled. *)
Lemma scaling_exact_witness :
  (forall name s,
      Py.get (file_scores (F:=B64) ["x"; "y"]%string b64_files b64_idfs) name
      = Some s ->
      Py.get (file_scores (F:=B64) ["x"; "y"]%string
                [("b.txt", ["y"; "y"]); ("a.txt", repeat "x" 6)]%string
                b64_idfs) name
      = Some (PrimFloat.mul (b64_of_int (Z.of_nat 2)) s)) /\
  top_files (F:=B64) ["x"; "y"]%string
    [("b.txt", ["y"; "y"]); ("a.txt", repeat "x" 6)]%string b64_idfs 2
  = top_files (F:=B64) ["x"; "y"]%string b64_files b64_idfs 2.
Proof.
  apply (@scaling_exact B64 2 ["x"; "y"]%string b64_idfs b64_files).
  - lia.
  - exact b64_files_wf.
  - repeat (apply Forall2_cons || apply Forall2_nil);
      (split; [reflexivity | count_cases]).
  - vm_compute. reflexivity.
  - intros name words [H|[H|[]]]; injection H as _ <-;
      vm_compute; repeat split.
  - intros x y Hx Hy. vm_compute in Hx, Hy.
    destruct Hx as [<-|[<-|[]]]; destruct Hy as [<-|[<-|[]]];
      vm_compute; reflexivity.
Defined.

(** ** Scaling under binary64 rounding *)

(** C9 as stated fails on the floats the code computes with.  With
    idf(x) = 0.1 a file holding x three times scores 0.30000000000000004;
    with the count tripled it scores 9 * 0.1 = 0.9, while three times the
    score is 0.9000000000000001.  With idf(y) = 0.3 and every count
    multiplied by 5, two files that scored 0.3 and 0.30000000000000004
    both score 1.5, and the ranking turns around. *)
Lemma scaling_not_exact_b64 :
  (forall t, Py.count t (repeat "x"%string 9)
             = (3 * Py.count t ["x"; "x"; "x"]%string)%nat) /\
  feqb (tf_idf (F:=B64) ["x"; "y"]%string (repeat "x"%string 9) b64_idfs)
       (fmul (of_int 3)
             (tf_idf (F:=B64) ["x"; "y"]%string ["x"; "x"; "x"]%string b64_idfs))
  = false /\
  Forall2 (scaled 5) b64_files b64_files_times_5 /\
  top_files (F:=B64) ["x"; "y"]%string b64_files b64_idfs 2
  = ["a.txt"; "b.txt"]%string /\
  top_files (F:=B64) ["x"; "y"]%string b64_files_times_5 b64_idfs 2
  = ["b.txt"; "a.txt"]%string.
Proof.
  split; [|split; [|split; [|split]]].
  - count_cases.
  - vm_compute. reflexivity.
  - repeat (apply Forall2_cons || apply Forall2_nil);
      (split; [reflexivity | count_cases]).
  - vm_compute. reflexivity.
  - vm_compute. reflexivity.
Qed.

(** On the same file the factors 2, 4, 8 and 16 do scale the score
    exactly. *)
Example scaling_by_powers_of_two_b64 :
  Forall (fun k =>
            tf_idf (F:=B64) ["x"; "y"]%string (repeat "x"%string (k * 3)) b64_idfs
            = fmul (of_int (Z.of_nat k))
                   (tf_idf (F:=B64) ["x"; "y"]%string ["x"; "x"; "x"]%string
                           b64_idfs))
         [2; 4; 8; 16]%nat.
Proof. repeat constructor. Qed.

(** * Sample runs on binary64 *)

(** One file ["cat"; "sat"] and the query {cat}: the file is the top file,
    and the sentence scores (idf(cat), 1/2). *)
Example top_files_single_file :
  top_files (F:=B64) ["cat"]%string [("a.txt", ["cat"; "sat"])]%string
            [("cat", 0%float); ("sat", 0%float)]%string 1
  = ["a.txt"]%string.
Proof. vm_compute. reflexivity. Qed.

Example sentence_score_single_sentence :
  sentence_score (F:=B64) ["cat"]%string ["cat"; "sat"]%string
                 [("cat", 0%float); ("sat", 0%float)]%string
  = Ok (0%float, 0.5%float).
Proof. vm_compute. reflexivity. Qed.

(** A sentence without tokens makes the density a division by zero. *)
Example top_sentences_empty_sentence :
  top_sentences (F:=B64) ["cat"]%string
                [("The cat sat.", ["cat"; "sat"]); ("...", [])]%string
                [("cat", 0%float)]%string 1
  = Raise ZeroDivisionError.
Proof. vm_compute. reflexivity. Qed.

(** A negative [n] cuts from the end, as a Python slice does. *)
Example top_files_negative_n :
  top_files (F:=B64) ["x"; "y"]%string b64_files b64_idfs (-1)
  = ["a.txt"]%string.
Proof. vm_compute. reflexivity. Qed.

(** * Further properties of the scoring functions *)

(** ** compute_idfs: frequencies, totality, order of the documents *)

(** Every entry of the dictionary built by the first loop of compute_idfs
    is the number of documents containing its word, and lies between 1
    and the number of documents: the quotient in the second loop never
    has divisor 0 and is never below 1. *)
Theorem doc_frequency_bounds (documents : Py.dict (list string))
        (word : string) (frequency : nat) :
  In (word, frequency) (doc_frequency documents) ->
  frequency = df word documents /\
  (1 <= frequency <= List.length documents)%nat /\
  Py.get (doc_frequency documents) word = Some frequency.
Proof.
  intros Hin. pose proof (doc_frequency_items _ _ _ Hin) as [Hf Hb].
  split; [assumption|]. split; [lia|].
  apply get_wf_In; [apply doc_frequency_wf | assumption].
Qed.

Lemma doc_frequency_bounds_witness :
  In ("mat"%string, 1%nat) (doc_frequency example_documents) /\
  1%nat = df "mat"%string example_documents /\
  (1 <= 1 <= List.length example_documents)%nat /\
  Py.get (doc_frequency example_documents) "mat"%string = Some 1%nat.
Proof.
  assert (H : In ("mat"%string, 1%nat) (doc_frequency example_documents))
    by (vm_compute; auto).
  split; [exact H | exact (doc_frequency_bounds example_documents _ _ H)].
Defined.

(** compute_idfs divides by no zero.  The only exception it can raise is
    the ValueError of math.log, and it returns exactly when math.log
    accepts the quotient N / df(t) of every term [t] that occurs; the
    table it returns has the keys of the frequency dictionary, in the
    same order and without repetition. *)
Theorem compute_idfs_returns_iff (F : PyFloat) (M : PyMath F)
        (documents : Py.dict (list string)) :
  (forall e, compute_idfs documents = Raise e -> e = ValueError) /\
  ((exists idfs, compute_idfs documents = Ok idfs) <->
   forall t, (1 <= df t documents)%nat ->
             log (truediv (Z.of_nat (List.length documents))
                          (Z.of_nat (df t documents))) <> None) /\
  (forall idfs,
      compute_idfs documents = Ok idfs ->
      Py.keys idfs = Py.keys (doc_frequency documents) /\ Py.wf idfs).
Proof.
  split; [|split].
  - intros e He. now apply compute_idfs_Raise in He.
  - apply compute_idfs_Ok_iff.
  - intros idfs Hok. apply compute_idfs_Ok in Hok. tauto.
Qed.

(** A math.log that rejects 2.0 makes compute_idfs raise ValueError. *)
Example compute_idfs_raises_sample :
  @compute_idfs B64
    {| log := fun x : @float B64 =>
                if PrimFloat.eqb x 1 then Some 0%float else None |}
    example_documents
  = Raise ValueError.
Proof. vm_compute. reflexivity. Qed.

(** The idf table does not depend on the order in which the documents
    mapping enumerates the documents: compute_idfs returns for the one
    order when it does for the other, and the two tables hold the same
    value for every term. *)
Theorem compute_idfs_permutation (F : PyFloat) (M : PyMath F)
        (documents documents' : Py.dict (list string)) :
  Permutation documents documents' ->
  ((exists idfs, compute_idfs documents = Ok idfs) <->
   (exists idfs', compute_idfs documents' = Ok idfs')) /\
  (forall idfs idfs',
      compute_idfs documents = Ok idfs ->
      compute_idfs documents' = Ok idfs' ->
      forall t, Py.get idfs t = Py.get idfs' t).
Proof.
  intros Hp. split.
  - rewrite !compute_idfs_Ok_iff.
    split; intros H t; specialize (H t);
      rewrite (df_permutation t Hp), (Permutation_length Hp) in *; exact H.
  - intros idfs idfs' Hok Hok' t.
    destruct (compute_idfs_Ok _ Hok) as (_ & _ & Hget).
    destruct (compute_idfs_Ok _ Hok') as (_ & _ & Hget').
    rewrite Hget, Hget'.
    now rewrite (df_permutation t Hp), (Permutation_length Hp).
Qed.

Lemma compute_idfs_permutation_witness :
  ((exists idfs,
       compute_idfs (F:=B64) (M:=B64SampleMath) example_documents = Ok idfs) <->
   (exists idfs',
       compute_idfs (F:=B64) (M:=B64SampleMath)
         [("b.txt", ["cat"; "mat"]); ("a.txt", ["cat"; "sat"; "cat"])]%string
       = Ok idfs')) /\
  (forall idfs idfs',
      compute_idfs (F:=B64) (M:=B64SampleMath) example_documents = Ok idfs ->
      compute_idfs (F:=B64) (M:=B64SampleMath)
        [("b.txt", ["cat"; "mat"]); ("a.txt", ["cat"; "sat"; "cat"])]%string
      = Ok idfs' ->
      forall t, Py.get idfs t = Py.get idfs' t).
Proof.
  apply compute_idfs_permutation. apply perm_swap.
Defined.

(** ** The quotients num_documents / frequency on binary64 *)

Lemma b64_quotients_check_ok (N : nat) :
  b64_quotients_check N = true ->
  @quotients_ordered B64 N /\ @quotients_shrink B64 N.
Proof.
  unfold b64_quotients_check. rewrite !andb_true_iff, !forallb_forall.
  intros ((((H1 & H2) & H3) & H4) & H5).
  apply Leibniz.eqb_spec in H1, H2.
  split; [split; [exact H1|split; [exact H2|split]]|].
  - intros f Hf. apply H3. apply in_seq. lia.
  - intros f Hf. apply H4. apply in_seq. lia.
  - intros f Hf. apply H5. apply in_seq. lia.
Qed.

(** For up to 256 documents the binary64 quotients N / f that
    compute_idfs passes to math.log stand to 1, to N and to the quotients
    of a corpus with one more document as the exact quotients do. *)
Theorem b64_quotients (N : nat) :
  (1 <= N <= 256)%nat ->
  @quotients_ordered B64 N /\ @quotients_shrink B64 N.
Proof.
  intros HN. apply b64_quotients_check_ok.
  assert (Hall : forallb b64_quotients_check (seq 1 256) = true)
    by (vm_compute; reflexivity).
  rewrite forallb_forall in Hall. apply Hall. apply in_seq. lia.
Qed.

Lemma b64_quotients_witness :
  @quotients_ordered B64 3 /\ @quotients_shrink B64 3.
Proof.
  apply b64_quotients. lia.
Defined.

(** ** top_sentences: when it raises *)

Lemma sentence_scores_raise (F : PyFloat) query (idfs : Py.dict float)
      sentences acc e :
  for_each
    (fun sentence_scores '(sentence, words) =>
       s <- sentence_score query words idfs ;;
       Ok (Py.set sentence_scores sentence s))
    sentences acc = Raise e ->
  e = ZeroDivisionError /\ exists s, In (s, []) sentences.
Proof.
  revert acc. induction sentences as [|[s words] l IH]; intros acc; simpl.
  - discriminate.
  - destruct words as [|w words].
    + rewrite sentence_score_empty. simpl. intros [= <-]. eauto.
    + rewrite sentence_score_nonempty by discriminate. simpl.
      intros H. apply IH in H as (-> & s' & Hs'). eauto.
Qed.

Lemma sentence_scores_empty_raises (F : PyFloat) query (idfs : Py.dict float)
      sentences acc s :
  In (s, []) sentences ->
  for_each
    (fun sentence_scores '(sentence, words) =>
       s <- sentence_score query words idfs ;;
       Ok (Py.set sentence_scores sentence s))
    sentences acc = Raise ZeroDivisionError.
Proof.
  revert acc. induction sentences as [|[s' words] l IH]; intros acc; simpl.
  - tauto.
  - intros [[= -> ->]|Hin].
    + now rewrite sentence_score_empty.
    + destruct words as [|w words].
      * now rewrite sentence_score_empty.
      * rewrite sentence_score_nonempty by discriminate. simpl. now apply IH.
Qed.

(** top_sentences raises exactly when some sentence of the mapping has no
    tokens, and then the exception is ZeroDivisionError, whatever the
    query, the idfs and [n] are; it has no other way to fail. *)
Theorem top_sentences_raises_iff (F : PyFloat) (query : list string)
        (sentences : Py.dict (list string)) (idfs : Py.dict float) (n : Z) :
  (forall e, top_sentences query sentences idfs n = Raise e ->
             e = ZeroDivisionError) /\
  ((exists e, top_sentences query sentences idfs n = Raise e) <->
   exists s, In (s, []) sentences).
Proof.
  unfold top_sentences. split; [|split].
  - intros e H.
    destruct (sentence_scores query sentences idfs) as [scores|e'] eqn:E;
      simpl in H; [discriminate|].
    injection H as <-. unfold sentence_scores in E.
    now apply sentence_scores_raise in E.
  - intros [e H].
    destruct (sentence_scores query sentences idfs) as [scores|e'] eqn:E;
      simpl in H; [discriminate|].
    unfold sentence_scores in E. now apply sentence_scores_raise in E.
  - intros [s Hs]. exists ZeroDivisionError. unfold sentence_scores.
    now rewrite (@sentence_scores_empty_raises F query idfs sentences [] s Hs).
Qed.

(** ** top_files: the cut at [n] *)

(** The answer for a smaller [n] is the beginning of the answer for a
    larger one: asking for more files never reorders the first ones. *)
Theorem top_files_prefix (F : PyFloat) (query : list string)
        (files : Py.dict (list string)) (idfs : Py.dict float) (n m : Z) :
  (0 <= n <= m)%Z ->
  top_files query files idfs n
  = firstn (Z.to_nat n) (top_files query files idfs m).
Proof.
  intros [Hn Hm]. unfold top_files, Py.slice_to.
  destruct (Z.leb_spec 0 n); [|lia]. destruct (Z.leb_spec 0 m); [|lia].
  rewrite <- !firstn_map, firstn_firstn. f_equal. lia.
Qed.

Lemma top_files_prefix_witness :
  top_files (F:=B64) ["x"; "y"]%string b64_files b64_idfs 1
  = firstn (Z.to_nat 1) (top_files (F:=B64) ["x"; "y"]%string b64_files b64_idfs 2).
Proof.
  apply top_files_prefix. lia.
Defined.

(** A negative [n] does not give an empty answer: the slice drops the
    last [-n] files of the ranking, so that len(files) + n names are
    returned (none when that is negative). *)
Theorem top_files_negative (F : PyFloat) (query : list string)
        (files : Py.dict (list string)) (idfs : Py.dict float) (n : Z) :
  Py.wf files ->
  (n < 0)%Z ->
  List.length (top_files query files idfs n)
  = (List.length files - Z.to_nat (- n))%nat /\
  top_files query files idfs n
  = firstn (List.length files - Z.to_nat (- n))
           (top_files query files idfs (Z.of_nat (List.length files))).
Proof.
  intros Hwf Hn. unfold top_files, Py.slice_to.
  destruct (Z.leb_spec 0 n); [lia|].
  destruct (Z.leb_spec 0 (Z.of_nat (List.length files))); [|lia].
  set (sorted := sorted_reverse snd fltb (file_scores query files idfs)).
  assert (Hlen : List.length sorted = List.length files).
  { unfold sorted.
    now rewrite sorted_reverse_length, file_scores_map, length_map. }
  rewrite Hlen. split.
  - rewrite length_map, length_firstn. lia.
  - rewrite <- !firstn_map, firstn_firstn. f_equal. lia.
Qed.

Lemma top_files_negative_witness :
  List.length (top_files (F:=B64) ["x"; "y"]%string b64_files b64_idfs (-1))
  = (List.length b64_files - Z.to_nat (- (-1)))%nat /\
  top_files (F:=B64) ["x"; "y"]%string b64_files b64_idfs (-1)
  = firstn (List.length b64_files - Z.to_nat (- (-1)))
           (top_files (F:=B64) ["x"; "y"]%string b64_files b64_idfs
                      (Z.of_nat (List.length b64_files))).
Proof.
  apply top_files_negative; [|lia].
  repeat constructor; simpl; intuition discriminate.
Defined.

(** With [n] at least the number of files every file is returned, once. *)
Theorem top_files_all (F : PyFloat) (query : list string)
        (files : Py.dict (list string)) (idfs : Py.dict float) (n : Z) :
  Py.wf files ->
  (Z.of_nat (List.length files) <= n)%Z ->
  Permutation (top_files query files idfs n) (Py.keys files).
Proof.
  intros Hwf Hn. unfold top_files, Py.slice_to.
  destruct (Z.leb_spec 0 n); [|lia].
  rewrite firstn_all2.
  - rewrite <- (file_scores_keys query idfs Hwf).
    apply Permutation_map, sorted_reverse_perm.
  - rewrite sorted_reverse_length, file_scores_map, length_map by assumption.
    lia.
Qed.

Lemma top_files_all_witness :
  Permutation (top_files (F:=B64) ["x"; "y"]%string b64_files b64_idfs 5)
              (Py.keys b64_files).
Proof.
  apply top_files_all; [|simpl; lia].
  repeat constructor; simpl; intuition discriminate.
Defined.

(** The files returned are the best ones: a file left out of the answer
    never has a greater score than a file in it, when the scores are
    numbers. *)
Theorem top_files_best (F : PyFloat) (C : PyFloatCompare F)
        (query : list string) (files : Py.dict (list string))
        (idfs : Py.dict float) (n : Z) :
  Py.wf files ->
  (forall name s,
      Py.get (file_scores query files idfs) name = Some s -> is_number s) ->
  forall a b sa sb,
    In a (top_files query files idfs n) ->
    In b (Py.keys files) ->
    ~ In b (top_files query files idfs n) ->
    Py.get (file_scores query files idfs) a = Some sa ->
    Py.get (file_scores query files idfs) b = Some sb ->
    fltb sa sb = false.
Proof.
  intros Hwf Hnum a b sa sb Ha Hb Hnb Hga Hgb.
  pose proof (file_scores_wf query idfs Hwf) as Hwf'.
  destruct (fltb sa sb) eqn:E; auto. exfalso. apply Hnb.
  unfold top_files in *.
  assert (Hbefore : before b a
            (map fst (Py.slice_to
                        (sorted_reverse snd fltb (file_scores query files idfs))
                        n))).
  { eapply (@rank_above_listed _ fltb _ n Hwf' is_number); eauto.
    apply fltb_strict_weak_on. }
  now apply before_In in Hbefore.
Qed.

Lemma top_files_best_witness :
  PrimFloat.ltb 0x1.3333333333334p-2 0x1.3333333333333p-2 = false.
Proof.
  apply (@top_files_best B64 B64Compare ["x"; "y"]%string b64_files b64_idfs 1
           b64_files_wf b64_files_scores_numbers
           "a.txt"%string "b.txt"%string).
  - vm_compute. auto.
  - simpl. auto.
  - vm_compute. intros [H|[]]. discriminate H.
  - vm_compute. reflexivity.
  - vm_compute. reflexivity.
Defined.

(** ** A query that matches nothing *)

Lemma sorted_reverse_flat (A K : Type) (key : A -> K) (lt : K -> K -> bool)
      (l : list A) :
  (forall x y, In x l -> In y l -> lt (key x) (key y) = false) ->
  sorted_reverse key lt l = l.
Proof.
  induction l as [|x l IH]; intros H; simpl; auto.
  rewrite IH by (intros; apply H; now right).
  destruct l as [|y l]; simpl; auto.
  rewrite H; [reflexivity | now left | right; now left].
Qed.

Lemma tf_idf_no_match (F : PyFloat) query words (idfs : Py.dict float) :
  (forall t, In t query -> ~ In t words) ->
  tf_idf query words idfs = of_int 0.
Proof.
  unfold tf_idf. generalize (of_int 0) at 2 3 as acc.
  induction query as [|t q IH]; intros acc H; simpl; auto.
  assert (E : Py.mem t words = false) by (apply mem_false, H; now left).
  rewrite E. apply IH. intros t' Ht'. apply H. now right.
Qed.

(** When no query term occurs in any file (for one, when the query is
    empty) every file scores 0 and top_files returns the files in the
    order of the mapping, cut at [n]. *)
Theorem top_files_no_match (F : PyFloat) (query : list string)
        (files : Py.dict (list string)) (idfs : Py.dict float) (n : Z) :
  Py.wf files ->
  (forall name words t, In (name, words) files -> In t query -> ~ In t words) ->
  fltb (of_int 0) (of_int 0) = false ->
  (forall name, In name (Py.keys files) ->
                Py.get (file_scores query files idfs) name = Some (of_int 0)) /\
  top_files query files idfs n = Py.slice_to (Py.keys files) n.
Proof.
  intros Hwf Hno H0.
  assert (Hscores : file_scores query files idfs
                    = map (fun '(name, words) => (name, of_int 0)) files).
  { rewrite file_scores_map by assumption.
    apply map_ext_in. intros [name words] Hin. f_equal.
    apply tf_idf_no_match. eauto. }
  split.
  - intros name Hin. rewrite Hscores.
    rewrite (get_map_snd (fun _ : list string => of_int 0)).
    apply get_In_keys in Hin. now destruct (Py.get files name).
  - unfold top_files. rewrite Hscores, sorted_reverse_flat.
    + rewrite <- slice_to_map. f_equal.
      apply (keys_map_snd (fun _ : list string => of_int 0)).
    + intros x y Hx Hy.
      apply in_map_iff in Hx as ([? ?] & <- & _).
      apply in_map_iff in Hy as ([? ?] & <- & _). exact H0.
Qed.

Lemma top_files_no_match_witness :
  (forall name, In name (Py.keys b64_files) ->
                Py.get (file_scores (F:=B64) ["dog"]%string b64_files b64_idfs) name
                = Some (of_int 0)) /\
  top_files (F:=B64) ["dog"]%string b64_files b64_idfs 1
  = Py.slice_to (Py.keys b64_files) 1.
Proof.
  apply top_files_no_match.
  - repeat constructor; simpl; intuition discriminate.
  - intros name words t [H|[H|[]]] [<-|[]]; injection H as _ <-;
      simpl; intuition discriminate.
  - vm_compute. reflexivity.
Defined.

(** ** The iteration order of the query *)

(** The score of a file is a float sum taken in the order in which the
    query, a set, is iterated, and depends on that order: with the idfs
    0.1, 0.2 and 0.3 a file scores 0.6000000000000001 for the one order
    and 0.6 for the reverse, which ties it with a file that scores 0.6 and
    turns the ranking around. *)
Theorem query_order_matters_b64 :
  Permutation ["x"; "y"; "z"; "w"]%string ["z"; "y"; "x"; "w"]%string /\
  tf_idf (F:=B64) ["x"; "y"; "z"; "w"]%string ["x"; "y"; "z"]%string order_idfs
  = 0x1.3333333333334p-1%float /\
  tf_idf (F:=B64) ["z"; "y"; "x"; "w"]%string ["x"; "y"; "z"]%string order_idfs
  = 0x1.3333333333333p-1%float /\
  top_files (F:=B64) ["x"; "y"; "z"; "w"]%string order_files order_idfs 1
  = ["a.txt"]%string /\
  top_files (F:=B64) ["z"; "y"; "x"; "w"]%string order_files order_idfs 1
  = ["b.txt"]%string.
Proof.
  split; [|repeat split; vm_compute; reflexivity].
  apply Permutation_trans with ["y"; "x"; "z"; "w"]%string;
    [apply perm_swap|].
  apply Permutation_trans with ["y"; "z"; "x"; "w"]%string;
    [apply perm_skip, perm_swap|].
  apply perm_swap.
Qed.

(** ** top_sentences: the cut at [n] *)

(** When every sentence has tokens and [n] is not negative, top_sentences
    returns exactly min(n, number of sentences) sentences, all of them
    distinct keys of the sentences mapping. *)
Theorem top_sentences_length (F : PyFloat) (query : list string)
        (sentences : Py.dict (list string)) (idfs : Py.dict float) (n : Z) :
  Py.wf sentences ->
  (forall s words, In (s, words) sentences -> words <> []) ->
  (0 <= n)%Z ->
  exists out,
    top_sentences query sentences idfs n = Ok out /\
    List.length out = Nat.min (Z.to_nat n) (List.length sentences) /\
    NoDup out /\
    incl out (Py.keys sentences).
Proof.
  intros Hwf Hne Hn.
  destruct (sentence_scores_total query idfs sentences Hne) as [scores Hs].
  destruct (sentence_scores_wf _ _ _ Hwf Hs) as [Hwf' Hkeys].
  unfold top_sentences. rewrite Hs. simpl. eexists. split; [reflexivity|].
  split; [|split].
  - rewrite rank_length by assumption.
    rewrite <- (length_map fst scores), <- (length_map fst sentences).
    unfold Py.keys in Hkeys. now rewrite Hkeys.
  - now apply rank_NoDup.
  - intros a Ha. rewrite <- Hkeys. eapply rank_incl; eauto.
Qed.

Lemma top_sentences_length_witness :
  exists out,
    top_sentences (F:=B64) example_query example_sentences example_idfs 1
    = Ok out /\
    List.length out = Nat.min (Z.to_nat 1) (List.length example_sentences) /\
    NoDup out /\
    incl out (Py.keys example_sentences).
Proof.
  apply top_sentences_length;
    [exact example_sentences_wf | exact example_sentences_nonempty | lia].
Defined.

(** * Properties of tokenize, load_files and the loops of main *)

(** ** String tests *)

Lemma prefix_app_l (s1 s2 hay : string) :
  String.prefix (s1 ++ s2) hay = true -> String.prefix s1 hay = true.
Proof.
  revert hay. induction s1 as [|a s1 IH]; intros hay.
  - now destruct hay.
  - destruct hay as [|b hay]; simpl; auto.
    destruct (Ascii.ascii_dec a b); auto.
Qed.

Lemma str_contains_app_l (s1 s2 hay : string) :
  str_contains (s1 ++ s2) hay = true -> str_contains s1 hay = true.
Proof.
  induction hay as [|b hay IH]; cbn [str_contains].
  - rewrite !orb_false_r. apply prefix_app_l.
  - intros H. apply orb_true_iff in H as [H|H]; apply orb_true_iff.
    + left. now apply (prefix_app_l s1 s2).
    + right. auto.
Qed.

Lemma str_contains_char (c : Ascii.ascii) (hay : string) :
  In c (list_ascii_of_string hay) ->
  str_contains (String c EmptyString) hay = true.
Proof.
  induction hay as [|b hay IH]; cbn [str_contains list_ascii_of_string In];
    [tauto|].
  intros [->|Hin].
  - simpl. destruct (Ascii.ascii_dec c c); [|congruence].
    now destruct hay.
  - rewrite IH by assumption. apply orb_true_r.
Qed.

Lemma str_contains_empty (hay : string) : str_contains EmptyString hay = true.
Proof. now destruct hay. Qed.

Lemma punctuation_no_double (c : Ascii.ascii) :
  str_contains (String c (String c EmptyString)) punctuation = false.
Proof.
  destruct c as [[|] [|] [|] [|] [|] [|] [|] [|]]; vm_compute; reflexivity.
Qed.

(** ** tokenize *)

Section TokenizeFacts.
Variable word_tokenize : string -> list string.
Variable lower : string -> string.
Variable stopwords : list string.

Local Abbreviation tokenize' := (tokenize word_tokenize lower stopwords).

(** Every token that tokenize returns is the lowercase form of a word of
    the word tokenizer; it is not the empty string, not a single
    punctuation character, and not a stopword. *)
Theorem tokenize_tokens (document : string) (w : string) :
  In w (tokenize word_tokenize lower stopwords document) ->
  (exists w0, In w0 (word_tokenize document) /\ w = lower w0) /\
  w <> EmptyString /\
  (forall c, In c (list_ascii_of_string punctuation) ->
             w <> String c EmptyString) /\
  ~ In w stopwords.
Proof.
  unfold tokenize. intros Hin.
  apply filter_In in Hin as [Hin Hstop].
  apply filter_In in Hin as [Hin Hpunct].
  apply in_map_iff in Hin as (w0 & Hw0 & Hin).
  apply negb_true_iff in Hstop, Hpunct.
  split; [eauto|]. split; [|split].
  - intros ->. now rewrite str_contains_empty in Hpunct.
  - intros c Hc ->. now rewrite str_contains_char in Hpunct.
  - apply mem_false in Hstop. now rewrite to_set_In in Hstop.
Qed.

(** The punctuation test is a test for being a part of the string of
    punctuation characters, in which no character stands twice in a row:
    a word starting with a doubled character (an ellipsis of dots, a dash
    of hyphens) is never dropped as punctuation, and is returned unless
    it is a stopword. *)
Theorem tokenize_keeps_doubled (document w0 : string) (c : Ascii.ascii)
        (rest : string) :
  In w0 (word_tokenize document) ->
  lower w0 = String c (String c rest) ->
  ~ In (String c (String c rest)) stopwords ->
  In (String c (String c rest))
     (tokenize word_tokenize lower stopwords document).
Proof.
  intros Hin Hlow Hstop. unfold tokenize.
  apply filter_In. split; [apply filter_In; split|].
  - rewrite <- Hlow. now apply in_map.
  - apply negb_true_iff.
    destruct (str_contains (String c (String c rest)) punctuation) eqn:E; auto.
    change (String c (String c rest))
      with ((String c (String c EmptyString)) ++ rest)%string in E.
    apply str_contains_app_l in E. now rewrite punctuation_no_double in E.
  - apply negb_true_iff, mem_false. now rewrite to_set_In.
Qed.

End TokenizeFacts.

Lemma tokenize_tokens_witness :
  (exists w0, In w0 (one_word "cat") /\ "cat"%string = same w0) /\
  "cat"%string <> EmptyString /\
  (forall c, In c (list_ascii_of_string punctuation) ->
             "cat"%string <> String c EmptyString) /\
  ~ In "cat"%string ["the"]%string.
Proof.
  apply (@tokenize_tokens one_word same ["the"]%string "cat"%string).
  vm_compute. auto.
Defined.

Lemma tokenize_keeps_doubled_witness :
  In "..."%string (tokenize one_word same ["the"]%string "..."%string).
Proof.
  apply (@tokenize_keeps_doubled one_word same ["the"]%string
           "..."%string "..."%string (Ascii.ascii_of_nat 46) "."%string).
  - simpl. auto.
  - reflexivity.
  - simpl. intros [H|[]]. discriminate H.
Defined.

(** ** load_files *)

Lemma In_keys_set (V : Type) (d : Py.dict V) k v k' :
  In k' (Py.keys (Py.set d k v)) <-> In k' (Py.keys d) \/ k' = k.
Proof.
  rewrite keys_set. destruct (Py.get d k) eqn:E.
  - split; auto. intros [H| ->]; auto.
    apply get_In_keys. congruence.
  - rewrite in_app_iff. simpl. intuition congruence.
Qed.

Lemma In_set (V : Type) (d : Py.dict V) k v k' v' :
  In (k', v') (Py.set d k v) -> In (k', v') d \/ (k' = k /\ v' = v).
Proof.
  induction d as [|[k0 v0] d IH]; simpl.
  - intros [[= <- <-]|[]]. auto.
  - destruct (String.eqb k0 k) eqn:E; simpl.
    + apply String.eqb_eq in E. subst k0.
      intros [[= <- <-]|H]; auto.
    + intros [H|H]; auto. apply IH in H. tauto.
Qed.

Section ReadFacts.
Variable E : Type.
Variable join : string -> string -> string.
Variable read_text : string -> E + string.

Lemma read_files_spec (directory : string) (filenames : list string)
      (acc files : Py.dict string) :
  read_files join read_text directory filenames acc = Loaded files ->
  (Py.wf acc -> Py.wf files) /\
  (forall name, In name (Py.keys files) <->
                In name (Py.keys acc) \/
                (In name filenames /\ endswith name ".txt" = true)) /\
  (forall name text,
      Py.get files name = Some text ->
      Py.get acc name = Some text \/
      (In name filenames /\ endswith name ".txt" = true /\
       read_text (join directory name) = inr text)).
Proof.
  revert acc. induction filenames as [|filename l IH]; intros acc; simpl.
  - intros [= <-]. repeat split; auto; tauto.
  - destruct (endswith filename ".txt") eqn:Hext.
    + destruct (read_text (join directory filename)) as [e|text0] eqn:Hread;
        [discriminate|].
      intros H. apply IH in H as (Hwf & Hkeys & Hget). split; [|split].
      * intros Hacc. apply Hwf. now apply wf_set.
      * intros name. rewrite Hkeys, In_keys_set.
        split; [intros [[H| ->]|[H1 H2]]|intros [H|[[<-|H1] H2]]]; auto.
      * intros name text Hn. apply Hget in Hn as [Hn|(H1 & H2 & H3)]; auto.
        destruct (string_dec filename name) as [->|Hne].
        -- rewrite get_set_eq in Hn. injection Hn as <-. auto.
        -- rewrite get_set_neq in Hn by assumption. auto.
    + intros H. apply IH in H as (Hwf & Hkeys & Hget). split; [|split]; auto.
      * intros name. rewrite Hkeys.
        split; [intros [H|[H1 H2]]|intros [H|[[<-|H1] H2]]]; auto.
        congruence.
      * intros name text Hn. apply Hget in Hn as [Hn|(H1 & H2 & H3)]; auto.
Qed.

Lemma read_files_ext (read_text' : string -> E + string)
      (directory : string) (filenames : list string) (acc : Py.dict string) :
  (forall name, endswith name ".txt" = true ->
                read_text' (join directory name) = read_text (join directory name)) ->
  read_files join read_text' directory filenames acc
  = read_files join read_text directory filenames acc.
Proof.
  intros Hsame. revert acc.
  induction filenames as [|filename l IH]; intros acc; simpl; auto.
  destruct (endswith filename ".txt") eqn:Hext; auto.
  rewrite (Hsame _ Hext). destruct (read_text (join directory filename)); auto.
Qed.

Lemma read_files_no_ValueError (directory : string) (filenames : list string)
      (acc : Py.dict string) (message : string) :
  read_files join read_text directory filenames acc <> LoadValueError message.
Proof.
  revert acc. induction filenames as [|f l IH]; intros acc; simpl.
  - discriminate.
  - destruct (endswith f ".txt"); [|apply IH].
    destruct (read_text (join directory f)); [discriminate|apply IH].
Qed.

End ReadFacts.

Section LoadFacts.
Variable E : Type.
Variable isdir : string -> bool.
Variable listdir : string -> E + list string.
Variable join : string -> string -> string.
Variable read_text : string -> E + string.

(** When load_files returns, the directory exists and the dictionary has
    one entry for each listed name that ends in .txt and for no other
    name; each entry holds the text read from the path joined from the
    directory and the name. *)
Theorem load_files_contents (directory : string) (files : Py.dict string) :
  load_files isdir listdir join read_text directory = Loaded files ->
  isdir directory = true /\
  exists filenames,
    listdir directory = inr filenames /\
    Py.wf files /\
    (forall name, In name (Py.keys files) <->
                  In name filenames /\ endswith name ".txt" = true) /\
    (forall name text,
        Py.get files name = Some text ->
        read_text (join directory name) = inr text).
Proof.
  unfold load_files. destruct (isdir directory); simpl; [|discriminate].
  destruct (listdir directory) as [e|filenames]; [discriminate|].
  intros H. apply read_files_spec in H as (Hwf & Hkeys & Hget).
  split; [reflexivity|]. exists filenames. repeat split.
  - apply Hwf. constructor.
  - apply Hkeys in H. simpl in H. tauto.
  - apply Hkeys in H. simpl in H. tauto.
  - intros [H1 H2]. apply Hkeys. auto.
  - intros name text Hn. apply Hget in Hn as [Hn|(_ & _ & Hn)]; auto.
    discriminate.
Qed.

(** load_files opens only the files whose name ends in .txt: what reading
    any other file of the directory would give, or raise, has no effect on
    its result. *)
Theorem load_files_reads_txt_only (read_text' : string -> E + string)
        (directory : string) :
  (forall name, endswith name ".txt" = true ->
                read_text' (join directory name) = read_text (join directory name)) ->
  load_files isdir listdir join read_text' directory
  = load_files isdir listdir join read_text directory.
Proof.
  intros Hsame. unfold load_files.
  destruct (isdir directory); simpl; auto.
  destruct (listdir directory); auto. now apply read_files_ext.
Qed.

End LoadFacts.

(** ** The loops of main *)

Lemma top_sentences_cut (F : PyFloat) (query : list string)
      (sentences : Py.dict (list string)) (idfs : Py.dict float) (n : Z) :
  Py.wf sentences ->
  (forall s words, In (s, words) sentences -> words <> []) ->
  (0 <= n)%Z ->
  exists out,
    top_sentences query sentences idfs n = Ok out /\
    (List.length out <= Z.to_nat n)%nat /\
    incl out (Py.keys sentences).
Proof.
  intros Hwf Hne Hn.
  destruct (sentence_scores_total query idfs sentences Hne) as [scores Hs].
  destruct (sentence_scores_wf _ _ _ Hwf Hs) as [Hwf' Hkeys].
  unfold top_sentences. rewrite Hs. simpl. eexists. split; [reflexivity|].
  split.
  - rewrite rank_length by assumption. lia.
  - intros a Ha. rewrite <- Hkeys. eapply rank_incl; eauto.
Qed.

Section MainFacts.
Variable word_tokenize : string -> list string.
Variable sent_tokenize : string -> list string.
Variable lower : string -> string.
Variable stopwords : list string.
Variable E : Type.
Variable isdir : string -> bool.
Variable listdir : string -> E + list string.
Variable join : string -> string -> string.
Variable read_text : string -> E + string.

Local Abbreviation tok := (tokenize word_tokenize lower stopwords).
Local Abbreviation add_sentence' :=
  (add_sentence word_tokenize lower stopwords).
Local Abbreviation add_passage' :=
  (add_passage word_tokenize sent_tokenize lower stopwords).
Local Abbreviation extract' :=
  (extract_sentences word_tokenize sent_tokenize lower stopwords).
Local Abbreviation load' := (load_files isdir listdir join read_text).
Local Abbreviation file_words' := (file_words word_tokenize lower stopwords).

Lemma load_files_wf directory files : load' directory = Loaded files -> Py.wf files.
Proof.
  unfold load_files. destruct (isdir directory); simpl; [|discriminate].
  destruct (listdir directory) as [e|filenames]; [discriminate|].
  intros H. apply read_files_spec in H as (Hwf & _). apply Hwf. constructor.
Qed.

Lemma add_sentence_spec sentences s :
  (Py.wf sentences -> Py.wf (add_sentence' sentences s)) /\
  forall s' words,
    In (s', words) (add_sentence' sentences s) ->
    In (s', words) sentences \/ (s' = s /\ words = tok s /\ words <> []).
Proof.
  unfold add_sentence. destruct (tok s) as [|w ws] eqn:Etok.
  - split; auto.
  - split; [apply wf_set|].
    intros s' words H. apply In_set in H as [H|[-> ->]]; auto.
    right. repeat split. discriminate.
Qed.

Lemma add_sentences_spec (l : list string) sentences :
  (Py.wf sentences -> Py.wf (fold_left add_sentence' l sentences)) /\
  forall s' words,
    In (s', words) (fold_left add_sentence' l sentences) ->
    In (s', words) sentences \/ (In s' l /\ words = tok s' /\ words <> []).
Proof.
  revert sentences. induction l as [|s l IH]; intros sentences; simpl.
  - split; auto.
  - destruct (IH (add_sentence' sentences s)) as [Hwf Hin].
    destruct (add_sentence_spec sentences s) as [Hwf0 Hin0].
    split; [auto|]. intros s' words H.
    apply Hin in H as [H|(H1 & H2 & H3)]; [|right; auto].
    apply Hin0 in H as [H|(-> & H2 & H3)]; auto.
Qed.

Lemma add_passages_spec (passages : list string) sentences :
  (Py.wf sentences -> Py.wf (fold_left add_passage' passages sentences)) /\
  forall s' words,
    In (s', words) (fold_left add_passage' passages sentences) ->
    In (s', words) sentences \/
    (words = tok s' /\ words <> [] /\
     exists passage, In passage passages /\ In s' (sent_tokenize passage)).
Proof.
  revert sentences. induction passages as [|p l IH]; intros sentences; simpl.
  - split; auto.
  - destruct (IH (add_passage' sentences p)) as [Hwf Hin].
    destruct (add_sentences_spec (sent_tokenize p) sentences) as [Hwf0 Hin0].
    split; [auto|]. intros s' words H.
    apply Hin in H as [H|(H1 & H2 & passage & H3 & H4)].
    + apply Hin0 in H as [H|(H1 & H2 & H3)]; auto.
      right. repeat split; auto. exists p. auto.
    + right. repeat split; auto. exists passage. auto.
Qed.

Lemma extract_sentences_spec (files : Py.dict string) (filenames : list string)
      (acc : Py.dict (list string)) :
  incl filenames (Py.keys files) ->
  exists sentences,
    extract' files filenames acc = inr sentences /\
    (Py.wf acc -> Py.wf sentences) /\
    forall s words,
      In (s, words) sentences ->
      In (s, words) acc \/
      (words = tok s /\ words <> [] /\
       exists filename text passage,
         In filename filenames /\ Py.get files filename = Some text /\
         In passage (split_char newline text) /\
         In s (sent_tokenize passage)).
Proof.
  revert acc. induction filenames as [|filename l IH]; intros acc Hincl; simpl.
  - exists acc. auto.
  - assert (Hkey : In filename (Py.keys files)) by (apply Hincl; now left).
    apply get_In_keys in Hkey.
    destruct (Py.get files filename) as [text|] eqn:Hget; [|congruence].
    destruct (add_passages_spec (split_char newline text) acc) as [Hwf0 Hin0].
    destruct (IH (fold_left add_passage' (split_char newline text) acc))
      as (sentences & Hex & Hwf & Hin).
    { intros x Hx. apply Hincl. now right. }
    exists sentences. split; [assumption|]. split; [auto|].
    intros s words H. apply Hin in H as [H|(H1 & H2 & f & t & p & H3 & H4)].
    + apply Hin0 in H as [H|(H1 & H2 & p & H3 & H4)]; auto.
      right. repeat split; auto. exists filename, text, p. auto.
    + right. repeat split; auto. exists f, t, p. repeat split; tauto.
Qed.

Lemma file_words_map (files : Py.dict string) :
  Py.wf files ->
  file_words' files = map (fun '(name, text) => (name, tok text)) files.
Proof.
  intros Hwf. unfold file_words.
  now rewrite (fold_set_fresh (fun text => tok text)).
Qed.

(** What main builds from the loaded files, when the calls into nltk
    return.  The names top_files gives are keys of [files], so that
    [files[filename]] raises no KeyError and the loops run through; the
    sentences they collect are distinct keys, each mapped to its tokens,
    of which there is at least one, and each a sentence of a line of one
    of the top files; top_sentences therefore divides by no zero on them:
    it returns, at most SENTENCE_MATCHES of these sentences. *)
Theorem main_sentences_rankable (F : PyFloat) (directory : string)
        (files : Py.dict string) (query : list string)
        (file_idfs idfs : Py.dict float) :
  load_files isdir listdir join read_text directory = Loaded files ->
  exists sentences matches,
    extract_sentences word_tokenize sent_tokenize lower stopwords files
      (top_files query (file_words word_tokenize lower stopwords files)
                 file_idfs FILE_MATCHES) []
    = inr sentences /\
    Py.wf sentences /\
    (forall s words,
        In (s, words) sentences ->
        words = tokenize word_tokenize lower stopwords s /\ words <> [] /\
        exists filename text passage,
          In filename
             (top_files query (file_words word_tokenize lower stopwords files)
                        file_idfs FILE_MATCHES) /\
          Py.get files filename = Some text /\
          In passage (split_char newline text) /\
          In s (sent_tokenize passage)) /\
    top_sentences query sentences idfs SENTENCE_MATCHES = Ok matches /\
    (List.length matches <= 1)%nat /\
    incl matches (Py.keys sentences).
Proof.
  intros Hload. apply load_files_wf in Hload as Hwf.
  assert (Hfw : Py.wf (file_words' files)).
  { rewrite file_words_map by assumption. unfold Py.wf.
    now rewrite (keys_map_snd (fun text => tok text)). }
  assert (Hincl : incl (top_files query (file_words' files) file_idfs
                                  FILE_MATCHES)
                       (Py.keys files)).
  { intros name Hin. unfold top_files in Hin.
    apply rank_incl in Hin; [|now apply file_scores_wf].
    rewrite file_scores_keys in Hin by assumption.
    rewrite file_words_map in Hin by assumption.
    now rewrite (keys_map_snd (fun text => tok text)) in Hin. }
  destruct (extract_sentences_spec files [] Hincl)
    as (sentences & Hex & Hwfs & Hin).
  assert (Hwf' : Py.wf sentences) by (apply Hwfs; constructor).
  assert (Hne : forall s words, In (s, words) sentences -> words <> []).
  { intros s words H. apply Hin in H as [[]|(_ & H & _)]. exact H. }
  destruct (@top_sentences_cut F query sentences idfs SENTENCE_MATCHES
              Hwf' Hne ltac:(unfold SENTENCE_MATCHES; lia))
    as (matches & Hm & Hlen & Hsub).
  exists sentences, matches. repeat split; auto.
  - apply Hin in H as [[]|(H & _)]. exact H.
  - eapply Hne; eauto.
  - apply Hin in H as [[]|(_ & _ & H)]. exact H.
Qed.

End MainFacts.

(** ** Sample runs of load_files and of the loops of main *)

Lemma load_files_contents_witness :
  sample_isdir "corpus" = true /\
  exists filenames,
    sample_listdir "corpus" = inr filenames /\
    Py.wf [("a.txt", "cat")]%string /\
    (forall name, In name (Py.keys [("a.txt", "cat")]%string) <->
                  In name filenames /\ endswith name ".txt" = true) /\
    (forall name text,
        Py.get [("a.txt", "cat")]%string name = Some text ->
        sample_read_text (sample_join "corpus" name) = inr text).
Proof.
  apply (@load_files_contents unit sample_isdir sample_listdir sample_join
           sample_read_text "corpus"%string).
  reflexivity.
Defined.

Lemma load_files_reads_txt_only_witness :
  load_files sample_isdir sample_listdir sample_join
    (fun path => if String.eqb path "corpus/notes.md"
                 then inr "notes"%string else sample_read_text path)
    "corpus"
  = load_files sample_isdir sample_listdir sample_join sample_read_text "corpus".
Proof.
  apply load_files_reads_txt_only.
  intros name Hext.
  destruct (String.eqb (sample_join "corpus" name) "corpus/notes.md") eqn:Heq;
    [|reflexivity].
  apply String.eqb_eq in Heq. unfold sample_join in Heq. simpl in Heq.
  injection Heq as ->. vm_compute in Hext. discriminate Hext.
Defined.

Lemma main_sentences_rankable_witness :
  exists sentences matches,
    extract_sentences one_word one_word same ["the"]%string
      [("a.txt", "cat")]%string
      (top_files (F:=B64) ["cat"]%string
                 (file_words one_word same ["the"]%string
                             [("a.txt", "cat")]%string)
                 [("cat", 0%float)]%string FILE_MATCHES) []
    = inr sentences /\
    Py.wf sentences /\
    (forall s words,
        In (s, words) sentences ->
        words = tokenize one_word same ["the"]%string s /\ words <> [] /\
        exists filename text passage,
          In filename
             (top_files (F:=B64) ["cat"]%string
                        (file_words one_word same ["the"]%string
                                    [("a.txt", "cat")]%string)
                        [("cat", 0%float)]%string FILE_MATCHES) /\
          Py.get [("a.txt", "cat")]%string filename = Some text /\
          In passage (split_char newline text) /\
          In s (one_word passage)) /\
    top_sentences (F:=B64) ["cat"]%string sentences [("cat", 0%float)]%string
                  SENTENCE_MATCHES = Ok matches /\
    (List.length matches <= 1)%nat /\
    incl matches (Py.keys sentences).
Proof.
  apply (@main_sentences_rankable one_word one_word same ["the"]%string unit
           sample_isdir sample_listdir sample_join sample_read_text B64
           "corpus"%string).
  reflexivity.
Defined.

(** The sample corpus, from the directory to the answer. *)
Example main_loops_sample :
  load_files sample_isdir sample_listdir sample_join sample_read_text "corpus"
  = Loaded [("a.txt", "cat")]%string /\
  extract_sentences one_word one_word same ["the"]%string
    [("a.txt", "cat")]%string ["a.txt"]%string []
  = inr [("cat", ["cat"])]%string /\
  top_sentences (F:=B64) ["cat"]%string [("cat", ["cat"])]%string
                [("cat", 0%float)]%string SENTENCE_MATCHES
  = Ok ["cat"]%string.
Proof. repeat split. Qed.

(** ** The string functions on samples *)

Lemma split_char_nonempty (sep : Ascii.ascii) (s : string) :
  split_char sep s <> [].
Proof.
  destruct s as [|c s]; simpl; [discriminate|].
  destruct (Ascii.eqb c sep); [discriminate|].
  destruct (split_char sep s); discriminate.
Qed.

(** Joining the pieces with the separator gives the string back. *)
Lemma split_char_concat (sep : Ascii.ascii) (s : string) :
  String.concat (String sep EmptyString) (split_char sep s) = s.
Proof.
  induction s as [|c s IH]; simpl; auto.
  destruct (Ascii.eqb_spec c sep) as [->|Hne].
  - pose proof (split_char_nonempty sep s) as Hs.
    destruct (split_char sep s) as [|p ps]; [congruence|].
    simpl in *. now rewrite IH.
  - destruct (split_char sep s) as [|p ps]; simpl in *.
    + now rewrite <- IH.
    + destruct ps; simpl in *; now rewrite <- IH.
Qed.

Example split_char_lines :
  split_char newline
    ("a" ++ String newline (String newline "b"))%string
  = ["a"; ""; "b"]%string.
Proof. reflexivity. Qed.

Example endswith_samples :
  endswith "a.txt" ".txt" = true /\
  endswith ".txt" ".txt" = true /\
  endswith "txt" ".txt" = false /\
  endswith "a.txt.bak" ".txt" = false.
Proof. repeat split. Qed.

Example str_contains_samples :
  str_contains "." punctuation = true /\
  str_contains "()" punctuation = true /\
  str_contains "..." punctuation = false /\
  str_contains "cat" punctuation = false.
Proof. repeat split. Qed.
